(** * Tip calculator: the derivation and the event handlers of [App.js]

    The component of [src/tip_calculator_frontend/src/App.js] keeps six pieces
    of state (bill text, selected preset, custom-tip text, last preset,
    people text, rounding mode), derives the amounts it shows from them on
    every render, and changes the state through six event handlers.  This
    file embeds those definitions and proves the properties the
    specification states about them.

    Number model.  A JavaScript Number is modelled by [number]: an exact
    rational, one of the two infinities, or NaN.  The arithmetic of finite
    values is exact: neither the rounding nor the range of binary64 is
    modelled, and the two zeros are one value.  The specification states its
    equations "within floating rounding", which is this level of reading. *)

From Stdlib Require Import ZArith NArith Nnat QArith Qcanon Qround Qabs Qpower Lqa Lia.
From Stdlib Require Import Bool List Ascii String.
From Stdlib Require Import Decimal DecimalString DecimalFacts DecimalPos DecimalN.
Import ListNotations.

(** ** JavaScript numbers *)

Module JS.

Inductive number : Type :=
| Fin (q : Qc)
| PInf
| NInf
| NaN.

Declare Scope js_scope.
Delimit Scope js_scope with js.
Bind Scope js_scope with number.

Definition of_Z (z : Z) : number := Fin (Q2Qc (inject_Z z)).

Definition zero : number := of_Z 0.
Definition one : number := of_Z 1.
Definition hundred : number := of_Z 100.

(** The sign of a rational as a comparison with zero. *)
Definition sgn (q : Qc) : comparison := (q ?= 0)%Qc.

Definition neg (x : number) : number :=
  match x with
  | Fin q => Fin (- q)%Qc
  | PInf => NInf
  | NInf => PInf
  | NaN => NaN
  end.

(** [signed_inf c] is the infinity of sign [c], and NaN at [Eq]. *)
Definition signed_inf (c : comparison) : number :=
  match c with
  | Gt => PInf
  | Lt => NInf
  | Eq => NaN
  end.

Definition sign_of (x : number) : option comparison :=
  match x with
  | Fin q => Some (sgn q)
  | PInf => Some Gt
  | NInf => Some Lt
  | NaN => None
  end.

Definition sign_mul (a b : comparison) : comparison :=
  match a, b with
  | Eq, _ | _, Eq => Eq
  | Gt, Gt | Lt, Lt => Gt
  | Gt, Lt | Lt, Gt => Lt
  end.

(** [x + y] *)
Definition add (x y : number) : number :=
  match x, y with
  | NaN, _ | _, NaN => NaN
  | Fin a, Fin b => Fin (a + b)%Qc
  | PInf, NInf | NInf, PInf => NaN
  | PInf, _ | _, PInf => PInf
  | NInf, _ | _, NInf => NInf
  end.

(** [x - y] *)
Definition sub (x y : number) : number := add x (neg y).

(** [x * y]: a zero times an infinity is NaN. *)
Definition mul (x y : number) : number :=
  match x, y with
  | NaN, _ | _, NaN => NaN
  | Fin a, Fin b => Fin (a * b)%Qc
  | _, _ =>
      match sign_of x, sign_of y with
      | Some a, Some b => signed_inf (sign_mul a b)
      | _, _ => NaN
      end
  end.

(** [x / y]: a finite value over an infinity is zero, a non-zero value over
    zero is an infinity (zero counts as positive), and 0/0 and inf/inf are
    NaN. *)
Definition div (x y : number) : number :=
  match x, y with
  | NaN, _ | _, NaN => NaN
  | Fin a, Fin b =>
      match sgn b with
      | Eq => signed_inf (sgn a)
      | _ => Fin (a / b)%Qc
      end
  | Fin _, _ => zero
  | _, Fin b =>
      match sign_of x, sgn b with
      | Some a, Eq => signed_inf a
      | Some a, c => signed_inf (sign_mul a c)
      | None, _ => NaN
      end
  | _, _ => NaN
  end.

(** The abstract relational comparison [x < y], undefined on NaN. *)
Definition compare (x y : number) : option comparison :=
  match x, y with
  | NaN, _ | _, NaN => None
  | Fin a, Fin b => Some (a ?= b)%Qc
  | PInf, PInf | NInf, NInf => Some Eq
  | PInf, _ | _, NInf => Some Gt
  | NInf, _ | _, PInf => Some Lt
  end.

(** [x < y] *)
Definition lt (x y : number) : bool :=
  match compare x y with
  | Some Lt => true
  | _ => false
  end.

(** [x <= y] *)
Definition le (x y : number) : bool :=
  match compare x y with
  | Some (Lt | Eq) => true
  | _ => false
  end.

(** [x > y] *)
Definition gt (x y : number) : bool := lt y x.

Infix "+" := add : js_scope.
Infix "-" := sub : js_scope.
Infix "*" := mul : js_scope.
Infix "/" := div : js_scope.
Infix "<?" := lt (at level 70, no associativity) : js_scope.
Infix "<=?" := le (at level 70, no associativity) : js_scope.
Infix ">?" := gt (at level 70, no associativity) : js_scope.

(** [Number.isFinite(x)] *)
Definition Number_isFinite (x : number) : bool :=
  match x with
  | Fin _ => true
  | _ => false
  end.

(** [Math.max(x, y)]: NaN if either argument is. *)
Definition Math_max (x y : number) : number :=
  match compare x y with
  | None => NaN
  | Some Lt => y
  | Some _ => x
  end.

(** [Math.floor(x)] *)
Definition Math_floor (x : number) : number :=
  match x with
  | Fin q => of_Z (Qfloor q)
  | _ => x
  end.

(** [Math.round(x)]: the integer nearest to [x], the larger one at a tie,
    which is [floor (x + 1/2)]. *)
Definition Math_round (x : number) : number :=
  match x with
  | Fin q => of_Z (Qfloor (q + (1 # 2)))
  | _ => x
  end.

(** [ToBoolean(x)] on a Number: false at zero and NaN. *)
Definition ToBoolean (x : number) : bool :=
  match x with
  | Fin q => match sgn q with Eq => false | _ => true end
  | NaN => false
  | _ => true
  end.

(** [x === y] on Numbers: NaN equals nothing. *)
Definition strict_eq (x y : number) : bool :=
  match compare x y with
  | Some Eq => true
  | _ => false
  end.

(** [x || y] on Numbers *)
Definition or_else (x y : number) : number :=
  if ToBoolean x then x else y.

(** *** Text to Number *)

(** A JavaScript string is modelled by [string], one character per code
    unit below 256.  An [<input>] hands its handler a string; the helpers
    below also meet [null] and [undefined]. *)
Inductive value : Type :=
| Undefined
| Null
| Str (s : string).

Local Open Scope string_scope.
Local Open Scope N_scope.

(** [StrWhiteSpaceChar]: tab, LF, VT, FF, CR, space and no-break space. *)
Definition is_StrWhiteSpaceChar (c : ascii) : bool :=
  let n := N_of_ascii c in
  ((9 <=? n) && (n <=? 13)) || (n =? 32) || (n =? 160).

Fixpoint trim_start (s : string) : string :=
  match s with
  | String c r => if is_StrWhiteSpaceChar c then trim_start r else s
  | EmptyString => s
  end.

Fixpoint trim_end (s : string) : string :=
  match s with
  | String c r =>
      match trim_end r with
      | EmptyString => if is_StrWhiteSpaceChar c then EmptyString else String c EmptyString
      | r' => String c r'
      end
  | EmptyString => s
  end.

(** The value of a digit character: [0-9], [a-f], [A-F]. *)
Definition digit_value (c : ascii) : option N :=
  let n := N_of_ascii c in
  if (48 <=? n) && (n <=? 57) then Some (n - 48)
  else if (97 <=? n) && (n <=? 102) then Some (n - 87)
  else if (65 <=? n) && (n <=? 70) then Some (n - 55)
  else None.

Definition radix_digit (radix : N) (c : ascii) : option N :=
  match digit_value c with
  | Some d => if d <? radix then Some d else None
  | None => None
  end.

(** The longest prefix of digits of [s] in base [radix]: its value on top
    of [acc], the number of digits read on top of [cnt], and what follows. *)
Fixpoint scan_digits (radix acc : N) (cnt : nat) (s : string) : N * nat * string :=
  match s with
  | String c r =>
      match radix_digit radix c with
      | Some d => scan_digits radix (acc * radix + d) (S cnt) r
      | None => (acc, cnt, s)
      end
  | EmptyString => (acc, cnt, s)
  end.

Definition of_N (n : N) : number := of_Z (Z.of_N n).

(** [m * 10^e] *)
Definition decimal_value (m : N) (e : Z) : Qc :=
  Q2Qc (inject_Z (Z.of_N m) * inject_Z 10 ^ e).

Definition prefix_radix (c : ascii) : option N :=
  if (c =? "x")%char || (c =? "X")%char then Some 16
  else if (c =? "o")%char || (c =? "O")%char then Some 8
  else if (c =? "b")%char || (c =? "B")%char then Some 2
  else None.

(** [NonDecimalIntegerLiteral]: [0x], [0o] or [0b] and at least one digit. *)
Definition NonDecimalIntegerLiteral (s : string) : option number :=
  match s with
  | String c (String p r) =>
      if (c =? "0")%char then
        match prefix_radix p with
        | Some radix =>
            let '(m, cnt, rest) := scan_digits radix 0 0 r in
            if (0 <? cnt)%nat && (rest =? "")%string then Some (of_N m) else None
        | None => None
        end
      else None
  | _ => None
  end.

(** The digits of an exponent after its optional sign, to the end of the
    text. *)
Definition SignedInteger (s : string) : option Z :=
  let '(minus, r) :=
    match s with
    | String c r' =>
        if (c =? "+")%char then (false, r')
        else if (c =? "-")%char then (true, r')
        else (false, s)
    | EmptyString => (false, s)
    end in
  let '(m, cnt, rest) := scan_digits 10 0 0 r in
  if (0 <? cnt)%nat && (rest =? "")%string
  then Some (if minus then (- Z.of_N m)%Z else Z.of_N m)
  else None.

(** [ExponentPart], optional and up to the end of the text. *)
Definition ExponentPart (s : string) : option Z :=
  match s with
  | EmptyString => Some 0%Z
  | String c r =>
      if (c =? "e")%char || (c =? "E")%char then SignedInteger r else None
  end.

(** [StrUnsignedDecimalLiteral]: [Infinity], or digits with an optional
    fraction and exponent and at least one digit before the exponent. *)
Definition StrUnsignedDecimalLiteral (s : string) : option number :=
  if (s =? "Infinity")%string then Some PInf
  else
    let '(ip, ci, r1) := scan_digits 10 0 0 s in
    let '(m, cf, r2) :=
      match r1 with
      | String c r => if (c =? ".")%char then scan_digits 10 ip 0 r else (ip, 0%nat, r1)
      | EmptyString => (ip, 0%nat, r1)
      end in
    if (ci + cf =? 0)%nat then None
    else
      match ExponentPart r2 with
      | Some e => Some (Fin (decimal_value m (e - Z.of_nat cf)))
      | None => None
      end.

Definition StrDecimalLiteral (s : string) : option number :=
  match s with
  | String c r =>
      if (c =? "+")%char then StrUnsignedDecimalLiteral r
      else if (c =? "-")%char then option_map neg (StrUnsignedDecimalLiteral r)
      else StrUnsignedDecimalLiteral s
  | EmptyString => StrUnsignedDecimalLiteral s
  end.

(** [StringToNumber]: white space is trimmed, the empty text is zero and
    text outside the grammar is NaN. *)
Definition StringToNumber (s : string) : number :=
  let t := trim_end (trim_start s) in
  if (t =? "")%string then zero
  else
    match NonDecimalIntegerLiteral t with
    | Some x => x
    | None =>
        match StrDecimalLiteral t with
        | Some x => x
        | None => NaN
        end
    end.

(** [Number(v)] *)
Definition Number (v : value) : number :=
  match v with
  | Undefined => NaN
  | Null => zero
  | Str s => StringToNumber s
  end.

(** [v === ''] *)
Definition is_empty_string (v : value) : bool :=
  match v with
  | Str s => (s =? "")%string
  | _ => false
  end.

(** [v === null] *)
Definition is_null (v : value) : bool :=
  match v with
  | Null => true
  | _ => false
  end.

(** [v === undefined] *)
Definition is_undefined (v : value) : bool :=
  match v with
  | Undefined => true
  | _ => false
  end.

(** *** Number to text *)

(** The decimal digits of [n]. *)
Definition digits_of_N (n : N) : string :=
  NilEmpty.string_of_uint (N.to_uint n).

(** [strip10 fuel n] removes up to [fuel] trailing decimal zeros of [n] and
    counts them. *)
Fixpoint strip10 (fuel : nat) (n : N) : N * nat :=
  match fuel with
  | O => (n, O)
  | S fuel' =>
      if n mod 10 =? 0 then
        let '(s, j) := strip10 fuel' (n / 10) in (s, S j)
      else (n, O)
  end.

(** [Number::toString] at a positive integer: with [n] digits of which the
    first [k] are significant, all [n] digits while [n <= 21], and otherwise
    the first digit, a point and the other [k - 1] (when there are any),
    [e+] and [n - 1]. *)
Definition pos_toString (p : positive) : string :=
  let n := nb_digits (Pos.to_uint p) in
  if (n <=? 21)%nat then digits_of_N (Npos p)
  else
    let '(s, _) := strip10 n (Npos p) in
    match digits_of_N s with
    | String d rest =>
        String d (if (rest =? "")%string then "" else "." ++ rest)
          ++ "e+" ++ digits_of_N (N.of_nat (n - 1))
    | EmptyString => EmptyString
    end.

Definition integer_toString (z : Z) : string :=
  match z with
  | Z0 => "0"
  | Zpos p => pos_toString p
  | Zneg p => "-" ++ pos_toString p
  end.

(** [String(x)] and [`${x}`] on the Numbers this program prints with them,
    the integers: the digits are those of the exact value.  The digits of a
    fraction are not modelled (a non-integer prints as its floor). *)
Definition Number_toString (x : number) : string :=
  match x with
  | NaN => "NaN"
  | PInf => "Infinity"
  | NInf => "-Infinity"
  | Fin q => integer_toString (Qfloor q)
  end.

(** [digits] zeros *)
Fixpoint zeros (digits : nat) : string :=
  match digits with
  | O => EmptyString
  | S d => String "0" (zeros d)
  end.

(** The text [m] with a decimal point before its last [digits] characters,
    padded with zeros on the left to one digit before the point. *)
Definition insert_point (m : string) (digits : nat) : string :=
  let k := String.length m in
  let m' := if (k <=? digits)%nat then zeros (digits + 1 - k) ++ m else m in
  let k' := String.length m' in
  match digits with
  | O => m'
  | _ => substring 0 (k' - digits) m' ++ "." ++ substring (k' - digits) digits m'
  end.

(** [x.toFixed(digits)]: with [n] the integer nearest to [x * 10^digits]
    (the larger at a tie), the digits of [n] with the point inserted; a
    negative [x] prints [-] and the text of [-x]; from 10^21 on the text is
    that of [Number::toString]. *)
Definition Number_toFixed (x : number) (digits : nat) : string :=
  match x with
  | Fin q =>
      let a := Qabs q in
      let body :=
        if Qle_bool (inject_Z (10 ^ 21)) a then Number_toString (Fin (Q2Qc a))
        else
          let n := Qfloor (a * inject_Z (10 ^ Z.of_nat digits) + (1 # 2)) in
          insert_point (digits_of_N (Z.to_N n)) digits in
      match sgn q with
      | Lt => "-" ++ body
      | _ => body
      end
  | _ => Number_toString x
  end.

End JS.

(** ** The component *)

Import JS.
Local Open Scope string_scope.
Local Open Scope js_scope.

Definition TIP_PRESETS : list number := [of_Z 10; of_Z 15; of_Z 18; of_Z 20].

(** The three values of [ROUNDING_MODES], which the rounding radios carry. *)
Inductive ROUNDING_MODES : Type :=
| NONE
| TIP
| TOTAL.

Definition coerceNumber (value : value) : number :=
  if is_empty_string value || is_null value || is_undefined value then zero
  else
    let n := Number value in
    if Number_isFinite n then n else zero.

Definition formatCurrency (amount : number) : string :=
  let safe := if Number_isFinite amount then amount else zero in
  "$" ++ Number_toFixed safe 2.

Definition roundToWholeCurrency (amount : number) : number :=
  let safe := if Number_isFinite amount then amount else zero in
  Math_round safe.

(** *** State: the four [useState] cells and the [useRef] cell *)

Record AppState : Type := mkState {
  billInput : string;
  selectedTip : number;
  customTipInput : string;
  lastPresetTipRef : number;
  peopleInput : string;
  roundingMode : ROUNDING_MODES
}.

Definition initialState : AppState :=
  {| billInput := "";
     selectedTip := of_Z 15;
     customTipInput := "";
     lastPresetTipRef := of_Z 15;
     peopleInput := "1";
     roundingMode := NONE |}.

(** *** Derived values

    Each [useMemo] is a function of its dependency list. *)

Definition billRaw (billInput : string) : number := coerceNumber (Str billInput).
Definition customTipRaw (customTipInput : string) : number :=
  coerceNumber (Str customTipInput).
Definition peopleRaw (peopleInput : string) : number := coerceNumber (Str peopleInput).

Definition baseTipAmount (billForCalc tipPercentForCalc : number) : number :=
  billForCalc * (tipPercentForCalc / hundred).

Definition baseTotalAmount (billForCalc baseTipAmount : number) : number :=
  billForCalc + baseTipAmount.

Record Amounts : Type := mkAmounts {
  tipAmount : number;
  totalAmount : number
}.

(** The memo that applies the rounding mode to the overall amounts. *)
Definition roundedAmounts (roundingMode : ROUNDING_MODES)
    (baseTipAmount baseTotalAmount billForCalc : number) : Amounts :=
  match roundingMode with
  | TIP =>
      let roundedTip := roundToWholeCurrency baseTipAmount in
      {| tipAmount := roundedTip; totalAmount := billForCalc + roundedTip |}
  | TOTAL =>
      let roundedTotal := roundToWholeCurrency baseTotalAmount in
      let impliedTip := Math_max zero (roundedTotal - billForCalc) in
      {| tipAmount := impliedTip; totalAmount := billForCalc + impliedTip |}
  | NONE =>
      {| tipAmount := baseTipAmount; totalAmount := baseTotalAmount |}
  end.

Definition perPersonTip (tipAmount peopleClamped : number) : number :=
  tipAmount / peopleClamped.

Definition perPersonTotal (totalAmount peopleClamped : number) : number :=
  totalAmount / peopleClamped.

(** The core derivation: the three memos as the component chains them, from
    the clamped bill and the clamped tip percent. *)
Definition deriveAmounts (roundingMode : ROUNDING_MODES)
    (billForCalc tipPercentForCalc : number) : Amounts :=
  let baseTip := baseTipAmount billForCalc tipPercentForCalc in
  let baseTotal := baseTotalAmount billForCalc baseTip in
  roundedAmounts roundingMode baseTip baseTotal billForCalc.

(** One row of the results panel: its label and its value. *)
Record ResultRow : Type := mkRow {
  resultLabel : string;
  resultValue : string
}.

(** What one render of [App] computes and shows. *)
Record View : Type := mkView {
  v_isCustomActive : bool;
  v_activeTipPercent : number;
  v_billForCalc : number;
  v_tipPercentForCalc : number;
  v_billHasError : bool;
  v_tipHasError : bool;
  v_peopleClamped : number;
  v_peopleHasError : bool;
  v_tipAmount : number;
  v_totalAmount : number;
  v_perPersonTip : number;
  v_perPersonTotal : number;
  v_presets : list (number * bool);
  v_results : list ResultRow
}.

(** The body of [App], from the state to what is rendered. *)
Definition App (st : AppState) : View :=
  let billRaw := billRaw (billInput st) in
  let customTipRaw := customTipRaw (customTipInput st) in
  let peopleRaw := peopleRaw (peopleInput st) in
  let isCustomActive := negb (customTipInput st =? "")%string in
  let activeTipPercent := if isCustomActive then customTipRaw else selectedTip st in
  let billForCalc := Math_max zero billRaw in
  let tipPercentForCalc := Math_max zero activeTipPercent in
  let baseTipAmount := baseTipAmount billForCalc tipPercentForCalc in
  let baseTotalAmount := baseTotalAmount billForCalc baseTipAmount in
  let billHasError := billRaw <? zero in
  let tipHasError := activeTipPercent <? zero in
  let peopleClamped := Math_max one (Math_floor (or_else peopleRaw zero)) in
  let peopleHasError := peopleRaw <? one in
  let amounts := roundedAmounts (roundingMode st) baseTipAmount baseTotalAmount billForCalc in
  let perPersonTip := perPersonTip (tipAmount amounts) peopleClamped in
  let perPersonTotal := perPersonTotal (totalAmount amounts) peopleClamped in
  {| v_isCustomActive := isCustomActive;
     v_activeTipPercent := activeTipPercent;
     v_billForCalc := billForCalc;
     v_tipPercentForCalc := tipPercentForCalc;
     v_billHasError := billHasError;
     v_tipHasError := tipHasError;
     v_peopleClamped := peopleClamped;
     v_peopleHasError := peopleHasError;
     v_tipAmount := tipAmount amounts;
     v_totalAmount := totalAmount amounts;
     v_perPersonTip := perPersonTip;
     v_perPersonTotal := perPersonTotal;
     v_presets :=
       map (fun pct => (pct, negb isCustomActive && strict_eq (selectedTip st) pct))
           TIP_PRESETS;
     v_results :=
       [ {| resultLabel := "Tip Amount"; resultValue := formatCurrency (tipAmount amounts) |};
         {| resultLabel := "Total"; resultValue := formatCurrency (totalAmount amounts) |} ]
       ++ (if peopleClamped >? one then
             [ {| resultLabel := "Tip / person (" ++ Number_toString peopleClamped ++ ")";
                  resultValue := formatCurrency perPersonTip |};
               {| resultLabel := "Total / person (" ++ Number_toString peopleClamped ++ ")";
                  resultValue := formatCurrency perPersonTotal |} ]
           else []) |}.

(** *** Event handlers *)

Definition onBillChange (value : string) (st : AppState) : AppState :=
  {| billInput := value;
     selectedTip := selectedTip st;
     customTipInput := customTipInput st;
     lastPresetTipRef := lastPresetTipRef st;
     peopleInput := peopleInput st;
     roundingMode := roundingMode st |}.

Definition onSelectPreset (pct : number) (st : AppState) : AppState :=
  {| billInput := billInput st;
     selectedTip := pct;
     customTipInput := "";
     lastPresetTipRef := pct;
     peopleInput := peopleInput st;
     roundingMode := roundingMode st |}.

Definition onCustomTipChange (next : string) (st : AppState) : AppState :=
  {| billInput := billInput st;
     selectedTip := if (next =? "")%string then lastPresetTipRef st else selectedTip st;
     customTipInput := next;
     lastPresetTipRef := lastPresetTipRef st;
     peopleInput := peopleInput st;
     roundingMode := roundingMode st |}.

Definition setPeopleInput (text : string) (st : AppState) : AppState :=
  {| billInput := billInput st;
     selectedTip := selectedTip st;
     customTipInput := customTipInput st;
     lastPresetTipRef := lastPresetTipRef st;
     peopleInput := text;
     roundingMode := roundingMode st |}.

Definition onPeopleChange (raw : value) (st : AppState) : AppState :=
  let n := Number raw in
  if negb (Number_isFinite n) || (n <=? zero) then setPeopleInput "1" st
  else
    let clampedInt := Math_max one (Math_floor n) in
    setPeopleInput (Number_toString clampedInt) st.

Definition onPeopleBlur (raw : value) (st : AppState) : AppState :=
  let n := Number raw in
  if negb (Number_isFinite n) || (n <? one) then setPeopleInput "1" st
  else st.

Definition onRoundingModeChange (value : ROUNDING_MODES) (st : AppState) : AppState :=
  {| billInput := billInput st;
     selectedTip := selectedTip st;
     customTipInput := customTipInput st;
     lastPresetTipRef := lastPresetTipRef st;
     peopleInput := peopleInput st;
     roundingMode := value |}.

(** ** The user's actions

    A preset button exists for each member of [TIP_PRESETS] and passes it
    to [onSelectPreset]; the other events carry the value of their input. *)

Inductive Event : Type :=
| BillChange (value : string)
| SelectPreset (pct : number)
| CustomTipChange (next : string)
| PeopleChange (raw : value)
| PeopleBlur (raw : value)
| RoundingModeChange (value : ROUNDING_MODES).

Definition enabled (e : Event) : Prop :=
  match e with
  | SelectPreset pct => In pct TIP_PRESETS
  | _ => True
  end.

Definition handle (st : AppState) (e : Event) : AppState :=
  match e with
  | BillChange value => onBillChange value st
  | SelectPreset pct => onSelectPreset pct st
  | CustomTipChange next => onCustomTipChange next st
  | PeopleChange raw => onPeopleChange raw st
  | PeopleBlur raw => onPeopleBlur raw st
  | RoundingModeChange value => onRoundingModeChange value st
  end.

(** The state after the events [es], the first of them first. *)
Definition run (es : list Event) : AppState := fold_left handle es initialState.

(** The preset selected last in [es], and the initial 15 if none was. *)
Definition lastSelected (es : list Event) : number :=
  fold_left (fun last e => match e with SelectPreset pct => pct | _ => last end)
            es (of_Z 15).

(** The tip sources a render shows as active: the custom field when
    [isCustomActive], and each preset button that is pressed. *)
Inductive TipSource : Type :=
| CustomSource
| PresetSource (pct : number).

Definition activeSources (v : View) : list TipSource :=
  ((if v_isCustomActive v then [CustomSource] else [])
   ++ map (fun p => PresetSource (fst p)) (filter snd (v_presets v)))%list.

(** ** The earlier version of the component

    The repository also holds the component as it was before the people
    count and the rounding mode were added: the same helpers, presets and
    tip-source handlers, a tip and a total that are never rounded, and a
    results panel of two rows. *)

Module Previous.

Record AppState : Type := mkState {
  billInput : string;
  selectedTip : number;
  customTipInput : string;
  lastPresetTipRef : number
}.

Definition initialState : AppState :=
  {| billInput := "";
     selectedTip := of_Z 15;
     customTipInput := "";
     lastPresetTipRef := of_Z 15 |}.

Definition tipAmount (billForCalc tipPercentForCalc : number) : number :=
  billForCalc * (tipPercentForCalc / hundred).

Definition totalAmount (billForCalc tipAmount : number) : number :=
  billForCalc + tipAmount.

Record View : Type := mkView {
  v_isCustomActive : bool;
  v_activeTipPercent : number;
  v_billHasError : bool;
  v_tipHasError : bool;
  v_tipAmount : number;
  v_totalAmount : number;
  v_presets : list (number * bool);
  v_results : list ResultRow
}.

Definition App (st : AppState) : View :=
  let billRaw := billRaw (billInput st) in
  let customTipRaw := customTipRaw (customTipInput st) in
  let isCustomActive := negb (customTipInput st =? "")%string in
  let activeTipPercent := if isCustomActive then customTipRaw else selectedTip st in
  let billForCalc := Math_max zero billRaw in
  let tipPercentForCalc := Math_max zero activeTipPercent in
  let tipAmount := tipAmount billForCalc tipPercentForCalc in
  let totalAmount := totalAmount billForCalc tipAmount in
  let billHasError := billRaw <? zero in
  let tipHasError := activeTipPercent <? zero in
  {| v_isCustomActive := isCustomActive;
     v_activeTipPercent := activeTipPercent;
     v_billHasError := billHasError;
     v_tipHasError := tipHasError;
     v_tipAmount := tipAmount;
     v_totalAmount := totalAmount;
     v_presets :=
       map (fun pct => (pct, negb isCustomActive && strict_eq (selectedTip st) pct))
           TIP_PRESETS;
     v_results :=
       [ {| resultLabel := "Tip Amount"; resultValue := formatCurrency tipAmount |};
         {| resultLabel := "Total"; resultValue := formatCurrency totalAmount |} ] |}.

Definition onBillChange (value : string) (st : AppState) : AppState :=
  {| billInput := value;
     selectedTip := selectedTip st;
     customTipInput := customTipInput st;
     lastPresetTipRef := lastPresetTipRef st |}.

Definition onSelectPreset (pct : number) (st : AppState) : AppState :=
  {| billInput := billInput st;
     selectedTip := pct;
     customTipInput := "";
     lastPresetTipRef := pct |}.

Definition onCustomTipChange (next : string) (st : AppState) : AppState :=
  {| billInput := billInput st;
     selectedTip := if (next =? "")%string then lastPresetTipRef st else selectedTip st;
     customTipInput := next;
     lastPresetTipRef := lastPresetTipRef st |}.

Inductive Event : Type :=
| BillChange (value : string)
| SelectPreset (pct : number)
| CustomTipChange (next : string).

Definition handle (st : AppState) (e : Event) : AppState :=
  match e with
  | BillChange value => onBillChange value st
  | SelectPreset pct => onSelectPreset pct st
  | CustomTipChange next => onCustomTipChange next st
  end.

Definition run (es : list Event) : AppState := fold_left handle es initialState.

End Previous.

(** The part of a state that the earlier version had. *)
Definition previousState (st : AppState) : Previous.AppState :=
  {| Previous.billInput := billInput st;
     Previous.selectedTip := selectedTip st;
     Previous.customTipInput := customTipInput st;
     Previous.lastPresetTipRef := lastPresetTipRef st |}.

(** The events that the earlier version had, in their order. *)
Fixpoint previousEvents (es : list Event) : list Previous.Event :=
  match es with
  | [] => []
  | BillChange value :: es' => Previous.BillChange value :: previousEvents es'
  | SelectPreset pct :: es' => Previous.SelectPreset pct :: previousEvents es'
  | CustomTipChange next :: es' => Previous.CustomTipChange next :: previousEvents es'
  | _ :: es' => previousEvents es'
  end.

Definition isRoundingModeChange (e : Event) : bool :=
  match e with
  | RoundingModeChange _ => true
  | _ => false
  end.

Definition isPeopleChange (e : Event) : bool :=
  match e with
  | PeopleChange _ => true
  | _ => false
  end.

(** The part of the state that an event writes: the bill text, the tip
    source (selected preset, custom text and remembered preset), the people
    text or the rounding mode. *)
Inductive Field : Type :=
| BillField
| TipField
| PeopleField
| ModeField.

Definition fieldOf (e : Event) : Field :=
  match e with
  | BillChange _ => BillField
  | SelectPreset _ | CustomTipChange _ => TipField
  | PeopleChange _ | PeopleBlur _ => PeopleField
  | RoundingModeChange _ => ModeField
  end.

(** ** Notions used in the statements *)

(** A finite number that is not negative. *)
Definition NonNegative (x : number) : Prop :=
  exists q : Qc, x = Fin q /\ (0 <= q)%Qc.

(** [round_half_up x] is the integer nearest to [x], the larger of the two
    at a tie: the whole currency unit the component rounds to. *)
Definition round_half_up (x : Qc) : Z := Qfloor (x + (1 # 2)).

(** The rounded base total of the round-total mode. *)
Definition roundedBaseTotal (bill tipPercent : Qc) : Z :=
  round_half_up (bill + bill * tipPercent / Q2Qc 100)%Qc.

(** Equality of numbers, decided by computation. *)
Definition number_eqb (x y : number) : bool :=
  match x, y with
  | Fin a, Fin b => Qeq_bool a b
  | PInf, PInf | NInf, NInf | NaN, NaN => true
  | _, _ => false
  end.

(** *** Decimal digits

    The digits of a printed integer are a [Decimal.uint]; the definitions
    below follow [scan_digits] over its text. *)

(** The value of the digits [d] read after a prefix of value [acc]. *)
Fixpoint eval10 (d : uint) (acc : N) : N :=
  (match d with
  | Nil => acc
  | D0 d => eval10 d (acc * 10 + 0)
  | D1 d => eval10 d (acc * 10 + 1)
  | D2 d => eval10 d (acc * 10 + 2)
  | D3 d => eval10 d (acc * 10 + 3)
  | D4 d => eval10 d (acc * 10 + 4)
  | D5 d => eval10 d (acc * 10 + 5)
  | D6 d => eval10 d (acc * 10 + 6)
  | D7 d => eval10 d (acc * 10 + 7)
  | D8 d => eval10 d (acc * 10 + 8)
  | D9 d => eval10 d (acc * 10 + 9)
  end)%N.

(** A character at which [scan_digits 10] stops. *)
Definition stops (rest : string) : Prop :=
  match rest with
  | EmptyString => True
  | String c _ => radix_digit 10%N c = None
  end.

(** Text without white space, which trimming leaves as it is. *)
Fixpoint no_ws (s : string) : bool :=
  match s with
  | EmptyString => true
  | String c r => negb (is_StrWhiteSpaceChar c) && no_ws r
  end.

(** The text after the integer digits: a fraction or none, then an
    exponent part or none. *)
Definition tail_text (has_dot : bool) (df : uint) (exp_text : string) : string :=
  ((if has_dot then "." ++ NilEmpty.string_of_uint df else "") ++ exp_text)%string.

(** The first digit of [d] alone, and the digits after it. *)
Definition hd_uint (d : uint) : uint :=
  match d with
  | Nil => Nil
  | D0 _ => D0 Nil
  | D1 _ => D1 Nil
  | D2 _ => D2 Nil
  | D3 _ => D3 Nil
  | D4 _ => D4 Nil
  | D5 _ => D5 Nil
  | D6 _ => D6 Nil
  | D7 _ => D7 Nil
  | D8 _ => D8 Nil
  | D9 _ => D9 Nil
  end.

Definition tl_uint (d : uint) : uint :=
  match d with
  | Nil => Nil
  | D0 d | D1 d | D2 d | D3 d | D4 d | D5 d | D6 d | D7 d | D8 d | D9 d => d
  end.

(** *** Currency text *)

(** The amount [q] in cents, rounded to the nearest cent, the larger of the
    two at a tie. *)
Definition cents (q : Qc) : N := Z.to_N (round_half_up (q * Q2Qc 100)%Qc).

(** The two digits of a number of cents below 100. *)
Definition two_digits (c : N) : string :=
  if (c <? 10)%N then "0" ++ digits_of_N c else digits_of_N c.

(** ** Facts about the number model *)

Lemma number_eqb_eq (x y : number) : number_eqb x y = true <-> x = y.
Proof.
  split.
  - destruct x, y; simpl; try discriminate; try reflexivity.
    intros H. f_equal. apply Qc_is_canon. now apply Qeq_bool_eq.
  - intros <-. destruct x; simpl; try reflexivity. apply Qeq_bool_refl.
Qed.

Lemma number_eqb_neq (x y : number) : number_eqb x y = false <-> x <> y.
Proof. rewrite <- number_eqb_eq. now destruct (number_eqb x y). Qed.

(** Closed equations and disequations between numbers. *)
Ltac number_compute :=
  match goal with
  | |- @eq number _ _ => apply number_eqb_eq; vm_compute; reflexivity
  | |- not (@eq number _ _) => apply number_eqb_neq; vm_compute; reflexivity
  end.

(** Goals on canonical rationals are moved to [Q], where [lra] works. *)
Ltac qc_to_q :=
  unfold Qcle, Qclt, Qcdiv, Qcminus, Qcplus, Qcmult, Qcopp, Qcinv, Q2Qc in *;
  cbn [this] in *;
  repeat rewrite Qred_correct in *.

Section NumberFacts.

Local Open Scope Qc_scope.

Lemma Q2Qc_this (q : Qc) : Q2Qc q = q.
Proof. apply Qc_is_canon. simpl. apply Qred_correct. Qed.

Lemma sgn_Lt (q : Qc) : sgn q = Lt <-> q < 0.
Proof. unfold sgn. symmetry. apply Qclt_alt. Qed.

Lemma sgn_Gt (q : Qc) : sgn q = Gt <-> 0 < q.
Proof. unfold sgn. symmetry. apply Qcgt_alt. Qed.

Lemma sgn_Eq (q : Qc) : sgn q = Eq <-> q = 0.
Proof. unfold sgn. symmetry. apply Qceq_alt. Qed.

Lemma lt_Fin (a b : Qc) : (Fin a <? Fin b)%js = true <-> a < b.
Proof.
  unfold lt; simpl. rewrite Qclt_alt.
  destruct (a ?= b); split; congruence.
Qed.

Lemma le_Fin (a b : Qc) : (Fin a <=? Fin b)%js = true <-> a <= b.
Proof.
  unfold le; simpl. rewrite Qcle_alt.
  destruct (a ?= b); split; congruence.
Qed.

Lemma lt_Fin_false (a b : Qc) : (Fin a <? Fin b)%js = false <-> b <= a.
Proof.
  rewrite <- Bool.not_true_iff_false, lt_Fin. split.
  - apply Qcnot_lt_le.
  - intros H H'. exact (Qcle_not_lt _ _ H H').
Qed.

Lemma le_Fin_false (a b : Qc) : (Fin a <=? Fin b)%js = false <-> b < a.
Proof.
  rewrite <- Bool.not_true_iff_false, le_Fin. split.
  - apply Qcnot_le_lt.
  - intros H H'. exact (Qclt_not_le _ _ H H').
Qed.

Lemma Math_max_Fin_l (a b : Qc) : b <= a -> Math_max (Fin a) (Fin b) = Fin a.
Proof.
  intros H. unfold Math_max; simpl.
  destruct (a ?= b) eqn:E; try reflexivity.
  apply Qclt_alt in E. contradiction (Qcle_not_lt _ _ H E).
Qed.

Lemma Math_max_Fin_r (a b : Qc) : a <= b -> Math_max (Fin a) (Fin b) = Fin b.
Proof.
  intros H. unfold Math_max; simpl.
  destruct (a ?= b) eqn:E; try reflexivity.
  - apply Qceq_alt in E. now subst.
  - apply Qcgt_alt in E. contradiction (Qcle_not_lt _ _ H E).
Qed.

Lemma Math_max_Fin (a b : Qc) :
  exists c, Math_max (Fin a) (Fin b) = Fin c /\ a <= c /\ b <= c /\ (c = a \/ c = b).
Proof.
  destruct (Qclt_le_dec a b) as [H | H].
  - exists b. rewrite Math_max_Fin_r by now apply Qclt_le_weak.
    repeat split; auto using Qcle_refl, Qclt_le_weak.
  - exists a. rewrite Math_max_Fin_l by assumption.
    repeat split; auto using Qcle_refl.
Qed.

Lemma div_hundred (a : Qc) : (Fin a / hundred)%js = Fin (a / Q2Qc 100).
Proof. reflexivity. Qed.

Lemma of_Z_le (a b : Z) : (a <= b)%Z -> Q2Qc (inject_Z a) <= Q2Qc (inject_Z b).
Proof.
  intros H. qc_to_q. now rewrite <- Zle_Qle.
Qed.

Lemma of_Z_nonneg (z : Z) : (0 <= z)%Z -> 0 <= Q2Qc (inject_Z z).
Proof. intros H. exact (of_Z_le 0 z H). Qed.

Lemma Qcmult_nonneg (a b : Qc) : 0 <= a -> 0 <= b -> 0 <= a * b.
Proof.
  intros Ha Hb. qc_to_q. now apply Qmult_le_0_compat.
Qed.

Lemma Qcplus_nonneg (a b : Qc) : 0 <= a -> 0 <= b -> 0 <= a + b.
Proof.
  intros Ha Hb. qc_to_q. lra.
Qed.

Lemma Qcinv_nonneg (a : Qc) : 0 <= a -> 0 <= / a.
Proof.
  intros Ha. qc_to_q. now apply Qinv_le_0_compat.
Qed.

Lemma Qcdiv_nonneg (a b : Qc) : 0 <= a -> 0 <= b -> 0 <= a / b.
Proof. intros Ha Hb. apply Qcmult_nonneg; auto using Qcinv_nonneg. Qed.

Lemma div_Fin_pos (a d : Qc) : 0 < d -> (Fin a / Fin d)%js = Fin (a / d).
Proof.
  intros H. unfold div. apply sgn_Gt in H. now rewrite H.
Qed.

Lemma Qcminus_nonneg (a b : Qc) : b <= a -> 0 <= a - b.
Proof. intros H. qc_to_q. lra. Qed.

Lemma Qcminus_nonpos (a b : Qc) : a <= b -> a - b <= 0.
Proof. intros H. qc_to_q. lra. Qed.

End NumberFacts.

Lemma round_half_up_nearest (x : Qc) :
  (inject_Z (round_half_up x) - (1 # 2) <= x < inject_Z (round_half_up x) + (1 # 2))%Q.
Proof.
  unfold round_half_up.
  pose proof (Qfloor_le (x + (1 # 2))) as Hl.
  pose proof (Qlt_floor (x + (1 # 2))) as Hu.
  rewrite inject_Z_plus in Hu. change (inject_Z 1) with 1%Q in Hu.
  split; lra.
Qed.

Lemma round_half_up_unique (x : Qc) (z : Z) :
  (inject_Z z - (1 # 2) <= x < inject_Z z + (1 # 2))%Q -> z = round_half_up x.
Proof.
  intros [Hl Hu].
  destruct (round_half_up_nearest x) as [Hl' Hu'].
  assert (inject_Z z < inject_Z (round_half_up x) + 1)%Q as H1 by lra.
  assert (inject_Z (round_half_up x) < inject_Z z + 1)%Q as H2 by lra.
  change 1%Q with (inject_Z 1) in H1, H2.
  rewrite <- inject_Z_plus, <- Zlt_Qlt in H1, H2. lia.
Qed.

Lemma round_half_up_nonneg (x : Qc) : (0 <= x)%Qc -> (0 <= round_half_up x)%Z.
Proof.
  intros H. unfold round_half_up.
  change 0%Z with (Qfloor 0). apply Qfloor_resp_le.
  unfold Qcle in H. cbn [this Q2Qc] in H. rewrite Qred_correct in H. lra.
Qed.

Lemma roundToWholeCurrency_Fin (x : Qc) :
  roundToWholeCurrency (Fin x) = of_Z (round_half_up x).
Proof. reflexivity. Qed.

(** ** The core derivation *)

(** What a render shows is the core derivation at the clamped bill and the
    clamped tip percent, and the per-person memos at its amounts. *)
Lemma App_deriveAmounts (st : AppState) :
  v_tipAmount (App st)
    = tipAmount (deriveAmounts (roundingMode st) (v_billForCalc (App st))
                               (v_tipPercentForCalc (App st)))
  /\ v_totalAmount (App st)
    = totalAmount (deriveAmounts (roundingMode st) (v_billForCalc (App st))
                                 (v_tipPercentForCalc (App st))).
Proof. split; reflexivity. Qed.

Lemma App_amounts_at (st : AppState) (mode : ROUNDING_MODES) (b t : number) :
  roundingMode st = mode ->
  v_billForCalc (App st) = b ->
  v_tipPercentForCalc (App st) = t ->
  v_tipAmount (App st) = tipAmount (deriveAmounts mode b t)
  /\ v_totalAmount (App st) = totalAmount (deriveAmounts mode b t).
Proof. intros <- <- <-. apply App_deriveAmounts. Qed.

Section CoreDerivation.

Local Open Scope Qc_scope.

Variables bill tipPercent : Qc.

Lemma baseTipAmount_Fin :
  baseTipAmount (Fin bill) (Fin tipPercent) = Fin (bill * tipPercent / Q2Qc 100).
Proof.
  unfold baseTipAmount. rewrite div_hundred. simpl. f_equal.
  unfold Qcdiv. apply Qcmult_assoc.
Qed.

Lemma baseTotalAmount_Fin :
  baseTotalAmount (Fin bill) (baseTipAmount (Fin bill) (Fin tipPercent))
  = Fin (bill + bill * tipPercent / Q2Qc 100).
Proof. rewrite baseTipAmount_Fin. reflexivity. Qed.

Lemma none_mode_amounts :
  deriveAmounts NONE (Fin bill) (Fin tipPercent)
  = {| tipAmount := Fin (bill * tipPercent / Q2Qc 100);
       totalAmount := Fin (bill + bill * tipPercent / Q2Qc 100) |}.
Proof.
  unfold deriveAmounts, roundedAmounts.
  now rewrite baseTotalAmount_Fin, baseTipAmount_Fin.
Qed.

Lemma tip_mode_amounts :
  deriveAmounts TIP (Fin bill) (Fin tipPercent)
  = let z := round_half_up (bill * tipPercent / Q2Qc 100) in
    {| tipAmount := of_Z z; totalAmount := Fin (bill + Q2Qc (inject_Z z)) |}.
Proof.
  unfold deriveAmounts, roundedAmounts.
  now rewrite baseTipAmount_Fin, roundToWholeCurrency_Fin.
Qed.



Lemma total_mode_amounts :
  deriveAmounts TOTAL (Fin bill) (Fin tipPercent)
  = let roundedTotal := of_Z (roundedBaseTotal bill tipPercent) in
    let impliedTip := Math_max zero (roundedTotal - Fin bill)%js in
    {| tipAmount := impliedTip; totalAmount := (Fin bill + impliedTip)%js |}.
Proof.
  unfold deriveAmounts, roundedAmounts.
  rewrite baseTotalAmount_Fin, roundToWholeCurrency_Fin. reflexivity.
Qed.

Lemma total_mode_cases :
  let a := deriveAmounts TOTAL (Fin bill) (Fin tipPercent) in
  let r := Q2Qc (inject_Z (roundedBaseTotal bill tipPercent)) in
  (bill <= r -> tipAmount a = Fin (r - bill) /\ totalAmount a = Fin r)
  /\ (r <= bill -> tipAmount a = zero /\ totalAmount a = Fin bill).
Proof.
  cbv zeta. rewrite total_mode_amounts. cbv zeta. cbn [tipAmount totalAmount].
  change (of_Z (roundedBaseTotal bill tipPercent) - Fin bill)%js
    with (Fin (Q2Qc (inject_Z (roundedBaseTotal bill tipPercent)) - bill)).
  change zero with (Fin 0).
  split; intros H.
  - rewrite Math_max_Fin_r.
    + split; [reflexivity |]. simpl. f_equal. ring.
    + now apply Qcminus_nonneg.
  - rewrite Math_max_Fin_l.
    + split; [reflexivity |]. simpl. f_equal. ring.
    + now apply Qcminus_nonpos.
Qed.


Lemma deriveAmounts_nonneg (mode : ROUNDING_MODES) :
  0 <= bill -> 0 <= tipPercent ->
  NonNegative (tipAmount (deriveAmounts mode (Fin bill) (Fin tipPercent)))
  /\ NonNegative (totalAmount (deriveAmounts mode (Fin bill) (Fin tipPercent))).
Proof.
  intros Hb Ht.
  assert (0 <= bill * tipPercent / Q2Qc 100) as Hbase.
  { apply Qcdiv_nonneg; [now apply Qcmult_nonneg | now vm_compute]. }
  destruct mode.
  - rewrite none_mode_amounts. cbn [tipAmount totalAmount]. split.
    + now eexists.
    + eexists. split; [reflexivity |]. now apply Qcplus_nonneg.
  - rewrite tip_mode_amounts. cbv zeta. cbn [tipAmount totalAmount].
    assert (0 <= Q2Qc (inject_Z (round_half_up (bill * tipPercent / Q2Qc 100))))
      as Hz.
    { apply of_Z_nonneg. now apply round_half_up_nonneg. }
    split.
    + now eexists.
    + eexists. split; [reflexivity |]. now apply Qcplus_nonneg.
  - rewrite total_mode_amounts. cbv zeta. cbn [tipAmount totalAmount].
    unfold of_Z.
    change (Fin ?r - Fin bill)%js with (Fin (r - bill)).
    change zero with (Fin 0).
    match goal with |- context [Math_max (Fin 0) (Fin ?d)] =>
      destruct (Math_max_Fin 0 d) as (c & -> & Hc & _)
    end.
    split.
    + now eexists.
    + eexists. split; [reflexivity |]. now apply Qcplus_nonneg.
Qed.

End CoreDerivation.


(** ** What every render satisfies *)

Section Render.

Local Open Scope Qc_scope.

Variable st : AppState.

Lemma coerceNumber_finite (v : value) : exists q, coerceNumber v = Fin q.
Proof.
  unfold coerceNumber. destruct (is_empty_string v); [now eexists |].
  destruct v; try (now eexists).
  destruct (Number (Str s)) eqn:E; simpl; now eexists.
Qed.

Lemma coerceNumber_of_finite (s : string) (q : Qc) :
  Number (Str s) = Fin q -> coerceNumber (Str s) = Fin q.
Proof.
  intros H. unfold coerceNumber. cbn [is_empty_string is_null is_undefined].
  rewrite !Bool.orb_false_r.
  destruct (String.eqb_spec s "") as [-> | _].
  - rewrite <- H. reflexivity.
  - now rewrite H.
Qed.

Lemma coerceNumber_not_finite (v : value) :
  Number_isFinite (Number v) = false -> coerceNumber v = zero.
Proof.
  intros H. unfold coerceNumber. rewrite H.
  now destruct (is_empty_string v || is_null v || is_undefined v).
Qed.

Lemma billForCalc_nonneg :
  exists b, v_billForCalc (App st) = Fin b /\ 0 <= b.
Proof.
  cbn [App v_billForCalc]. unfold billRaw.
  destruct (coerceNumber_finite (Str (billInput st))) as [q ->].
  change zero with (Fin 0).
  destruct (Math_max_Fin 0 q) as (c & -> & H & _). now exists c.
Qed.

Lemma activeTipPercent_finite :
  Number_isFinite (selectedTip st) = true ->
  exists t, v_activeTipPercent (App st) = Fin t.
Proof.
  intros Hsel. cbn [App v_activeTipPercent]. unfold customTipRaw.
  destruct (negb (customTipInput st =? "")%string).
  - apply coerceNumber_finite.
  - destruct (selectedTip st); try discriminate. now eexists.
Qed.

Lemma tipPercentForCalc_nonneg :
  Number_isFinite (selectedTip st) = true ->
  exists t, v_tipPercentForCalc (App st) = Fin t /\ 0 <= t.
Proof.
  intros Hsel. destruct (activeTipPercent_finite Hsel) as [q Hq].
  change (v_tipPercentForCalc (App st)) with (Math_max zero (v_activeTipPercent (App st))).
  rewrite Hq. change zero with (Fin 0).
  destruct (Math_max_Fin 0 q) as (c & -> & H & _). now exists c.
Qed.

Lemma peopleClamped_integer :
  exists k : Z, (1 <= k)%Z /\ v_peopleClamped (App st) = of_Z k.
Proof.
  cbn [App v_peopleClamped]. unfold peopleRaw.
  destruct (coerceNumber_finite (Str (peopleInput st))) as [q ->].
  assert (exists r, or_else (Fin q) zero = Fin r) as [r ->].
  { unfold or_else. destruct (ToBoolean (Fin q)); now eexists. }
  cbn [Math_floor]. unfold one, of_Z.
  destruct (Z_le_gt_dec 1 (Qfloor r)) as [H | H].
  - exists (Qfloor r). split; [exact H |].
    apply Math_max_Fin_r. now apply of_Z_le.
  - exists 1%Z. split; [lia |].
    apply Math_max_Fin_l. apply of_Z_le. lia.
Qed.

Lemma roundToWholeCurrency_finite (x : number) :
  exists z : Z, roundToWholeCurrency x = of_Z z.
Proof. destruct x; now eexists. Qed.

(** C10.  In every rounding mode the total is the clamped bill plus the tip.
    With the total rounded, when the rounded base total does not exceed the
    bill the tip is 0 and the total is the bill; when it is below the bill,
    the total shown is the bill and not the rounded base total. *)
Theorem total_is_bill_plus_tip :
  let v := App st in
  let roundedTotal :=
    roundToWholeCurrency
      (baseTotalAmount (v_billForCalc v)
         (baseTipAmount (v_billForCalc v) (v_tipPercentForCalc v))) in
  v_totalAmount v = (v_billForCalc v + v_tipAmount v)%js
  /\ (roundingMode st = TOTAL ->
      (roundedTotal <=? v_billForCalc v)%js = true ->
      v_tipAmount v = zero /\ v_totalAmount v = v_billForCalc v)
  /\ (roundingMode st = TOTAL ->
      (roundedTotal <? v_billForCalc v)%js = true ->
      v_totalAmount v <> roundedTotal
      /\ In {| resultLabel := "Total";
               resultValue := formatCurrency (v_billForCalc v) |} (v_results v)).
Proof.
  cbv zeta.
  set (bill := v_billForCalc (App st)).
  set (roundedTotal :=
         roundToWholeCurrency
           (baseTotalAmount bill (baseTipAmount bill (v_tipPercentForCalc (App st))))).
  assert (roundingMode st = TOTAL ->
          v_tipAmount (App st) = Math_max zero (roundedTotal - bill)%js
          /\ v_totalAmount (App st)
             = (bill + Math_max zero (roundedTotal - bill))%js) as Htotal.
  { intros Hmode. unfold roundedTotal, bill.
    cbn [App v_tipAmount v_totalAmount v_billForCalc v_tipPercentForCalc].
    rewrite Hmode. split; reflexivity. }
  split.
  { unfold bill. cbn [App v_totalAmount v_billForCalc v_tipAmount].
    destruct (roundingMode st); reflexivity. }
  destruct billForCalc_nonneg as (b & Hb & _). fold bill in Hb.
  destruct (roundToWholeCurrency_finite
              (baseTotalAmount bill
                 (baseTipAmount bill (v_tipPercentForCalc (App st))))) as [z Hz].
  fold roundedTotal in Hz. rewrite Hb, Hz in *. unfold of_Z in *.
  change (Fin ?r - Fin b)%js with (Fin (r - b)) in Htotal.
  change zero with (Fin 0) in *.
  split.
  - intros Hmode Hle. apply le_Fin in Hle.
    destruct (Htotal Hmode) as [-> ->].
    rewrite Math_max_Fin_l by now apply Qcminus_nonpos.
    split; [reflexivity |]. simpl. f_equal. ring.
  - intros Hmode Hlt. apply lt_Fin in Hlt.
    destruct (Htotal Hmode) as [Htip Htot].
    rewrite Math_max_Fin_l in Htot
      by now apply Qcminus_nonpos, Qclt_le_weak.
    assert (v_totalAmount (App st) = Fin b) as Hbill.
    { rewrite Htot. simpl. f_equal. ring. }
    split.
    + rewrite Hbill. intros H. injection H as H. rewrite H in Hlt.
      exact (Qclt_not_eq _ _ Hlt eq_refl).
    + cbn [App v_results List.app In]. right. left.
      f_equal. f_equal. exact Hbill.
Qed.

End Render.

(** ** Coercion, validation and the per-person split *)

(** C7.  [coerceNumber] maps the empty text, [null] (and [undefined]) and
    text that is not a finite numeral to 0, and maps the text of a finite
    number to that number, sign included, so that a negative entry is still
    below zero after coercion. *)
Theorem coerceNumber_keeps_finite_values :
  coerceNumber (Str "") = zero
  /\ coerceNumber Null = zero
  /\ coerceNumber Undefined = zero
  /\ (forall s, Number (Str s) = NaN -> coerceNumber (Str s) = zero)
  /\ (forall s, Number_isFinite (Number (Str s)) = false -> coerceNumber (Str s) = zero)
  /\ (forall s q, Number (Str s) = Fin q -> coerceNumber (Str s) = Fin q)
  /\ (forall s q, Number (Str s) = Fin q ->
        ((coerceNumber (Str s) <? zero)%js = true <-> (q < 0)%Qc)).
Proof.
  pose proof (fun s => coerceNumber_not_finite (Str s)) as Hnf.
  pose proof coerceNumber_of_finite as Hfin.
  repeat split; try reflexivity; auto.
  - intros s H. apply Hnf. now rewrite H.
  - rewrite (Hfin s q H). apply lt_Fin.
  - rewrite (Hfin s q H). apply lt_Fin.
Qed.

Section Validation.

Local Open Scope Qc_scope.

Variable st : AppState.

Lemma presets_finite (pct : number) :
  In pct TIP_PRESETS -> Number_isFinite pct = true.
Proof. intros [<- | [<- | [<- | [<- | []]]]]; reflexivity. Qed.

Lemma App_amounts_nonneg :
  Number_isFinite (selectedTip st) = true ->
  NonNegative (v_tipAmount (App st)) /\ NonNegative (v_totalAmount (App st)).
Proof.
  intros Hsel.
  destruct (App_deriveAmounts st) as [-> ->].
  destruct (billForCalc_nonneg st) as (b & -> & Hb).
  destruct (tipPercentForCalc_nonneg st Hsel) as (t & -> & Ht).
  now apply deriveAmounts_nonneg.
Qed.

Lemma App_perPerson_nonneg :
  Number_isFinite (selectedTip st) = true ->
  NonNegative (v_perPersonTip (App st)) /\ NonNegative (v_perPersonTotal (App st)).
Proof.
  intros Hsel.
  destruct (App_amounts_nonneg Hsel) as [(t & Ht & Ht0) (u & Hu & Hu0)].
  destruct (peopleClamped_integer st) as (k & Hk & Hp).
  change (v_perPersonTip (App st))
    with (v_tipAmount (App st) / v_peopleClamped (App st))%js.
  change (v_perPersonTotal (App st))
    with (v_totalAmount (App st) / v_peopleClamped (App st))%js.
  rewrite Ht, Hu, Hp. unfold of_Z.
  assert (0 < Q2Qc (inject_Z k)) as Hk0.
  { apply Qclt_le_trans with (Q2Qc (inject_Z 1)); [reflexivity | now apply of_Z_le]. }
  rewrite !div_Fin_pos by assumption.
  split; eexists; (split; [reflexivity |]);
    apply Qcdiv_nonneg; auto using Qclt_le_weak.
Qed.


(** C6.  The results panel holds the tip and the total and, exactly when
    the clamped people count exceeds 1, the two per-person rows; these show
    the overall tip and the overall total, as the rounding mode left them,
    divided by the clamped people count. *)
Theorem per_person_from_rounded_amounts :
  let v := App st in
  let a :=
    roundedAmounts (roundingMode st)
      (baseTipAmount (v_billForCalc v) (v_tipPercentForCalc v))
      (baseTotalAmount (v_billForCalc v)
         (baseTipAmount (v_billForCalc v) (v_tipPercentForCalc v)))
      (v_billForCalc v) in
  let people := v_peopleClamped v in
  v_tipAmount v = tipAmount a
  /\ v_totalAmount v = totalAmount a
  /\ v_perPersonTip v = (tipAmount a / people)%js
  /\ v_perPersonTotal v = (totalAmount a / people)%js
  /\ v_results v
     = ([ {| resultLabel := "Tip Amount"; resultValue := formatCurrency (tipAmount a) |};
          {| resultLabel := "Total"; resultValue := formatCurrency (totalAmount a) |} ]
        ++ (if (people >? one)%js then
              [ {| resultLabel := "Tip / person (" ++ Number_toString people ++ ")";
                   resultValue := formatCurrency (tipAmount a / people)%js |};
                {| resultLabel := "Total / person (" ++ Number_toString people ++ ")";
                   resultValue := formatCurrency (totalAmount a / people)%js |} ]
            else []))%list
  /\ List.length (v_results v) = (if (people >? one)%js then 4%nat else 2%nat)
  /\ (exists k : Z, (1 <= k)%Z /\ people = of_Z k
        /\ ((people >? one)%js = true <-> (1 < k)%Z)
        /\ (forall t, tipAmount a = Fin t ->
              v_perPersonTip v = Fin (t / Q2Qc (inject_Z k)))
        /\ (forall t, totalAmount a = Fin t ->
              v_perPersonTotal v = Fin (t / Q2Qc (inject_Z k)))).
Proof.
  cbv zeta. repeat (split; [reflexivity |]).
  split.
  - cbn [App v_results v_peopleClamped].
    now destruct (_ >? one)%js.
  - destruct (peopleClamped_integer st) as (k & Hk & Hp).
    exists k. split; [exact Hk |]. split; [exact Hp |].
    assert (0 < Q2Qc (inject_Z k)) as Hk0.
    { apply Qclt_le_trans with (Q2Qc (inject_Z 1)); [reflexivity | now apply of_Z_le]. }
    split; [| split].
    + rewrite Hp. unfold gt, one, of_Z. rewrite lt_Fin.
      unfold Qclt. cbn [this Q2Qc]. rewrite !Qred_correct.
      now rewrite <- Zlt_Qlt.
    + intros t Ht.
      change (v_perPersonTip (App st))
        with (v_tipAmount (App st) / v_peopleClamped (App st))%js.
      rewrite Hp. unfold of_Z.
      change (v_tipAmount (App st)) with
        (tipAmount (roundedAmounts (roundingMode st)
           (baseTipAmount (v_billForCalc (App st)) (v_tipPercentForCalc (App st)))
           (baseTotalAmount (v_billForCalc (App st))
              (baseTipAmount (v_billForCalc (App st)) (v_tipPercentForCalc (App st))))
           (v_billForCalc (App st)))).
      rewrite Ht. now apply div_Fin_pos.
    + intros t Ht.
      change (v_perPersonTotal (App st))
        with (v_totalAmount (App st) / v_peopleClamped (App st))%js.
      rewrite Hp. unfold of_Z.
      change (v_totalAmount (App st)) with
        (totalAmount (roundedAmounts (roundingMode st)
           (baseTipAmount (v_billForCalc (App st)) (v_tipPercentForCalc (App st)))
           (baseTotalAmount (v_billForCalc (App st))
              (baseTipAmount (v_billForCalc (App st)) (v_tipPercentForCalc (App st))))
           (v_billForCalc (App st)))).
      rewrite Ht. now apply div_Fin_pos.
Qed.

Lemma deriveAmounts_zero_bill (mode : ROUNDING_MODES) (t : Qc) :
  deriveAmounts mode zero (Fin t) = {| tipAmount := zero; totalAmount := zero |}.
Proof.
  change zero with (Fin 0).
  assert (0 * t / Q2Qc 100 = 0) as H0.
  { unfold Qcdiv. now rewrite !Qcmult_0_l. }
  destruct mode.
  - rewrite none_mode_amounts, H0. f_equal; number_compute.
  - rewrite tip_mode_amounts, H0. cbv zeta. f_equal; number_compute.
  - rewrite total_mode_amounts. unfold roundedBaseTotal. rewrite H0.
    cbv zeta. f_equal; number_compute.
Qed.

Lemma billHasError_clamps :
  v_billHasError (App st) = true -> v_billForCalc (App st) = zero.
Proof.
  cbn [App v_billHasError v_billForCalc]. unfold billRaw.
  destruct (coerceNumber_finite (Str (billInput st))) as [q ->].
  change zero with (Fin 0). rewrite lt_Fin. intros H.
  apply Math_max_Fin_l. now apply Qclt_le_weak.
Qed.

Lemma tipHasError_clamps :
  v_tipHasError (App st) = true -> v_tipPercentForCalc (App st) = zero.
Proof.
  change (v_tipHasError (App st)) with (v_activeTipPercent (App st) <? zero)%js.
  change (v_tipPercentForCalc (App st)) with (Math_max zero (v_activeTipPercent (App st))).
  destruct (v_activeTipPercent (App st)) as [q | | |];
    try (intros H; discriminate H); try reflexivity.
  change zero with (Fin 0). rewrite lt_Fin. intros H.
  apply Math_max_Fin_l. now apply Qclt_le_weak.
Qed.

Lemma peopleHasError_clamps :
  v_peopleHasError (App st) = true -> v_peopleClamped (App st) = one.
Proof.
  cbn [App v_peopleHasError v_peopleClamped]. unfold peopleRaw.
  destruct (coerceNumber_finite (Str (peopleInput st))) as [q ->].
  unfold one at 1, of_Z. rewrite lt_Fin. intros H.
  assert (exists r, or_else (Fin q) zero = Fin r /\ r < Q2Qc (inject_Z 1)) as (r & -> & Hr).
  { unfold or_else. destruct (ToBoolean (Fin q)).
    - now exists q.
    - exists 0. split; reflexivity. }
  cbn [Math_floor]. unfold one, of_Z. apply Math_max_Fin_l. apply of_Z_le.
  pose proof (Qfloor_le r) as Hf.
  assert (inject_Z (Qfloor r) < inject_Z 1)%Q as Hlt.
  { unfold Qclt in Hr. cbn [this Q2Qc] in Hr. rewrite Qred_correct in Hr. lra. }
  rewrite <- Zlt_Qlt in Hlt. lia.
Qed.


End Validation.



(** ** The tip source *)

Lemma run_snoc (es : list Event) (e : Event) :
  run (es ++ [e]) = handle (run es) e.
Proof. unfold run. now rewrite fold_left_app. Qed.

Lemma lastSelected_snoc (es : list Event) (e : Event) :
  lastSelected (es ++ [e])
  = match e with SelectPreset pct => pct | _ => lastSelected es end.
Proof. unfold lastSelected. now rewrite fold_left_app. Qed.

Lemma setPeopleInput_tip (text : string) (st : AppState) :
  selectedTip (setPeopleInput text st) = selectedTip st
  /\ lastPresetTipRef (setPeopleInput text st) = lastPresetTipRef st
  /\ customTipInput (setPeopleInput text st) = customTipInput st.
Proof. repeat split. Qed.

Lemma people_handlers_keep_tip (raw : value) (st : AppState) :
  (selectedTip (onPeopleChange raw st) = selectedTip st
   /\ lastPresetTipRef (onPeopleChange raw st) = lastPresetTipRef st
   /\ customTipInput (onPeopleChange raw st) = customTipInput st)
  /\ (selectedTip (onPeopleBlur raw st) = selectedTip st
     /\ lastPresetTipRef (onPeopleBlur raw st) = lastPresetTipRef st
     /\ customTipInput (onPeopleBlur raw st) = customTipInput st).
Proof.
  unfold onPeopleChange, onPeopleBlur. split.
  - destruct (negb _ || _); apply setPeopleInput_tip.
  - destruct (negb _ || _); [apply setPeopleInput_tip | repeat split].
Qed.

(** The memory of the last preset changes on a preset selection only. *)
Lemma lastPresetTipRef_handle (st : AppState) (e : Event) :
  lastPresetTipRef (handle st e)
  = match e with SelectPreset pct => pct | _ => lastPresetTipRef st end.
Proof.
  destruct e; try reflexivity; apply people_handlers_keep_tip.
Qed.

(** In every reachable state the selected preset and the remembered preset
    are both the preset selected last. *)
Lemma run_selected (es : list Event) :
  Forall enabled es ->
  selectedTip (run es) = lastSelected es
  /\ lastPresetTipRef (run es) = lastSelected es
  /\ In (lastSelected es) TIP_PRESETS.
Proof.
  induction es as [| e es IH] using rev_ind; intros Hen.
  - repeat split. right. left. reflexivity.
  - apply Forall_app in Hen as [Hes He]. apply Forall_inv in He.
    destruct (IH Hes) as (Hsel & Href & Hin).
    rewrite run_snoc, lastSelected_snoc, lastPresetTipRef_handle.
    destruct e; cbn [handle]; try (repeat split; assumption).
    + split; [| now split]. cbn [onCustomTipChange selectedTip].
      destruct (next =? "")%string; congruence.
    + destruct (people_handlers_keep_tip raw (run es)) as [(-> & _) _]. now repeat split.
    + destruct (people_handlers_keep_tip raw (run es)) as [_ (-> & _)]. now repeat split.
Qed.

(** With the custom text empty and a preset selected, the pressed button is
    that preset and it is the one active source. *)
Lemma preset_active (st : AppState) :
  customTipInput st = "" ->
  In (selectedTip st) TIP_PRESETS ->
  v_isCustomActive (App st) = false
  /\ v_activeTipPercent (App st) = selectedTip st
  /\ activeSources (App st) = [PresetSource (selectedTip st)].
Proof.
  intros Hc Hin. unfold activeSources.
  cbn [App v_isCustomActive v_activeTipPercent v_presets]. rewrite Hc.
  cbn [String.eqb negb andb].
  split; [reflexivity |]. split; [reflexivity |].
  destruct Hin as [<- | [<- | [<- | [<- | []]]]]; reflexivity.
Qed.

(** With a custom text, no button is pressed and the custom field is the
    one active source. *)
Lemma custom_active (st : AppState) :
  customTipInput st <> "" ->
  v_isCustomActive (App st) = true
  /\ v_activeTipPercent (App st) = customTipRaw (customTipInput st)
  /\ activeSources (App st) = [CustomSource].
Proof.
  intros Hc. apply String.eqb_neq in Hc. unfold activeSources.
  cbn [App v_isCustomActive v_activeTipPercent v_presets]. rewrite Hc.
  repeat split.
Qed.

(** C5.  After any sequence of events: exactly one tip source is active, so
    at most one; custom is active exactly when the custom text is not
    empty; selecting a preset empties the custom text, makes that preset the
    active source and records it as the last preset; emptying the custom
    text makes the preset selected last (15 if none was) the active source;
    and an event other than a preset selection leaves the memory of the last
    preset as it was. *)
Theorem one_tip_source_active (es : list Event) :
  Forall enabled es ->
  let st := run es in
  List.length (activeSources (App st)) = 1%nat
  /\ (List.length (activeSources (App st)) <= 1)%nat
  /\ (v_isCustomActive (App st) = true <-> customTipInput st <> "")
  /\ (In CustomSource (activeSources (App st)) <-> customTipInput st <> "")
  /\ (forall pct, In pct TIP_PRESETS ->
        let st' := handle st (SelectPreset pct) in
        customTipInput st' = ""
        /\ v_isCustomActive (App st') = false
        /\ lastPresetTipRef st' = pct
        /\ v_activeTipPercent (App st') = pct
        /\ activeSources (App st') = [PresetSource pct])
  /\ (let st' := handle st (CustomTipChange "") in
      lastPresetTipRef st = lastSelected es
      /\ v_isCustomActive (App st') = false
      /\ v_activeTipPercent (App st') = lastSelected es
      /\ activeSources (App st') = [PresetSource (lastSelected es)])
  /\ (forall e, (forall pct, e <> SelectPreset pct) ->
        lastPresetTipRef (handle st e) = lastPresetTipRef st).
Proof.
  intros Hen. cbv zeta.
  destruct (run_selected es Hen) as (Hsel & Href & Hin).
  assert (activeSources (App (run es))
          = if (customTipInput (run es) =? "")%string
            then [PresetSource (selectedTip (run es))] else [CustomSource]) as Hact.
  { destruct (String.eqb_spec (customTipInput (run es)) "") as [Hc | Hc].
    - apply preset_active; [exact Hc | now rewrite Hsel].
    - now apply custom_active. }
  split; [| split; [| split; [| split; [| split; [| split]]]]].
  - rewrite Hact. now destruct (_ =? _)%string.
  - rewrite Hact. destruct (_ =? _)%string; simpl; lia.
  - cbn [App v_isCustomActive]. rewrite Bool.negb_true_iff. apply String.eqb_neq.
  - rewrite Hact. destruct (String.eqb_spec (customTipInput (run es)) "") as [Hc | Hc].
    + split; [| contradiction]. intros [H | []]. discriminate H.
    + split; [auto | intros _; now left].
  - intros pct Hpct.
    destruct (preset_active (onSelectPreset pct (run es)) eq_refl Hpct)
      as (H1 & H2 & H3).
    repeat split; assumption.
  - assert (In (selectedTip (onCustomTipChange "" (run es))) TIP_PRESETS) as Hin'.
    { cbn. now rewrite Href. }
    destruct (preset_active (onCustomTipChange "" (run es)) eq_refl Hin')
      as (H1 & H2 & H3).
    cbn [handle]. cbn [onCustomTipChange selectedTip String.eqb] in H2, H3.
    rewrite Href in H2, H3. repeat split; assumption.
  - intros e He. rewrite lastPresetTipRef_handle.
    destruct e; try reflexivity. now contradiction (He pct).
Qed.

(** The 18% preset, then a custom 5: custom is the active source, and
    emptying the custom text restores 18%. *)
Lemma clearing_custom_restores_preset :
  let es := [SelectPreset (of_Z 18); CustomTipChange "5"] in
  Forall enabled es
  /\ activeSources (App (run es)) = [CustomSource]
  /\ activeSources (App (handle (run es) (CustomTipChange "")))
     = [PresetSource (of_Z 18)].
Proof.
  cbv zeta.
  assert (Forall enabled [SelectPreset (of_Z 18); CustomTipChange "5"]) as Hen.
  { constructor; [right; right; left; reflexivity |].
    constructor; [exact I | constructor]. }
  split; [exact Hen |].
  split; [reflexivity |].
  pose proof (one_tip_source_active _ Hen) as H. cbv zeta in H.
  destruct H as (_ & _ & _ & _ & _ & (_ & _ & _ & H) & _).
  exact H.
Defined.

(** ** Printing an integer and reading it back *)

Section IntegerText.

Local Open Scope N_scope.

Lemma eval10_pos (d : uint) (a : positive) :
  eval10 d (Npos a) = Npos (Pos.of_uint_acc d a).
Proof.
  revert a. induction d; intros a; cbn [eval10 Pos.of_uint_acc];
    try reflexivity; rewrite <- IHd; f_equal; lia.
Qed.

Lemma eval10_of_uint (d : uint) : eval10 d 0 = N.of_uint d.
Proof.
  unfold N.of_uint.
  induction d; cbn [eval10 Pos.of_uint]; try reflexivity;
    try (change (0 * 10 + 0) with 0; exact IHd);
    apply eval10_pos.
Qed.

Lemma eval10_to_uint (n : N) : eval10 (N.to_uint n) 0 = n.
Proof. rewrite eval10_of_uint. apply DecimalN.Unsigned.of_to. Qed.

Lemma scan_digits_uint (d : uint) (acc : N) (cnt : nat) (rest : string) :
  stops rest ->
  scan_digits 10 acc cnt (NilEmpty.string_of_uint d ++ rest)
  = (eval10 d acc, (cnt + nb_digits d)%nat, rest).
Proof.
  intros Hrest. revert acc cnt.
  induction d; intros acc cnt;
    cbn [NilEmpty.string_of_uint String.append eval10 nb_digits scan_digits];
    try (match goal with
         | |- context [radix_digit 10 ?c] =>
             let v := eval vm_compute in (radix_digit 10 c) in
             change (radix_digit 10 c) with v; cbv iota
         end;
         rewrite IHd, <- plus_n_Sm; reflexivity).
  rewrite Nat.add_0_r.
  destruct rest as [| c r]; [reflexivity |].
  cbn [scan_digits]. simpl in Hrest. now rewrite Hrest.
Qed.

Lemma digit_char_facts (c : ascii) (v : N) :
  radix_digit 10 c = Some v ->
  is_StrWhiteSpaceChar c = false
  /\ (c =? "+")%char = false /\ (c =? "-")%char = false
  /\ (c =? ".")%char = false /\ (c =? "I")%char = false
  /\ prefix_radix c = None.
Proof.
  destruct c as [[] [] [] [] [] [] [] []]; intros H; vm_compute in H;
    try discriminate H; vm_compute; repeat split.
Qed.

Lemma string_of_uint_cons (d : uint) :
  d <> Nil ->
  exists c v d',
    NilEmpty.string_of_uint d = String c (NilEmpty.string_of_uint d')
    /\ radix_digit 10 c = Some v
    /\ nb_digits d = S (nb_digits d')
    /\ (forall acc, eval10 d acc = eval10 d' (acc * 10 + v)).
Proof.
  intros Hd. destruct d; [contradiction | ..];
    eexists _, _, d; (split; [reflexivity |]); (split; [reflexivity |]);
    split; reflexivity.
Qed.

Lemma trim_start_no_ws (s : string) : no_ws s = true -> trim_start s = s.
Proof.
  destruct s as [| c r]; [reflexivity |]. simpl.
  now destruct (is_StrWhiteSpaceChar c).
Qed.

Lemma trim_end_no_ws (s : string) : no_ws s = true -> trim_end s = s.
Proof.
  induction s as [| c r IH]; [reflexivity |]. simpl.
  destruct (is_StrWhiteSpaceChar c); [discriminate |]. simpl.
  intros H. rewrite (IH H). now destruct r.
Qed.

Lemma no_ws_app (a b : string) : no_ws (a ++ b) = no_ws a && no_ws b.
Proof.
  induction a as [| c r IH]; [reflexivity |]. simpl.
  now rewrite IH, Bool.andb_assoc.
Qed.

Lemma no_ws_uint (d : uint) : no_ws (NilEmpty.string_of_uint d) = true.
Proof. induction d; simpl; auto. Qed.

Lemma string_app_nil_r (s : string) : (s ++ "")%string = s.
Proof. induction s as [| c r IH]; [reflexivity |]. simpl. now rewrite IH. Qed.

(** The first character of an exponent part. *)
Lemma ExponentPart_start (c : ascii) (r : string) (e : Z) :
  ExponentPart (String c r) = Some e ->
  radix_digit 10 c = None /\ (c =? ".")%char = false
  /\ prefix_radix c = None /\ (c =? "I")%char = false
  /\ (c =? "+")%char = false /\ (c =? "-")%char = false.
Proof.
  simpl. destruct (c =? "e")%char eqn:He.
  - apply Ascii.eqb_eq in He. subst c. intros _. repeat split.
  - destruct (c =? "E")%char eqn:HE; [| discriminate].
    apply Ascii.eqb_eq in HE. subst c. intros _. repeat split.
Qed.

Lemma ExponentPart_plus (d : uint) :
  d <> Nil ->
  ExponentPart ("e+" ++ NilEmpty.string_of_uint d) = Some (Z.of_N (eval10 d 0)).
Proof.
  intros Hd. cbn [ExponentPart String.append Ascii.eqb Bool.eqb orb].
  unfold SignedInteger. cbn [Ascii.eqb Bool.eqb].
  rewrite <- (string_app_nil_r (NilEmpty.string_of_uint d)).
  rewrite scan_digits_uint by exact I.
  destruct (string_of_uint_cons d Hd) as (_ & _ & d' & _ & _ & -> & _).
  reflexivity.
Qed.

Lemma tail_text_start (has_dot : bool) (df : uint) (exp_text : string) (e : Z) :
  ExponentPart exp_text = Some e ->
  match tail_text has_dot df exp_text with
  | EmptyString => True
  | String c _ =>
      radix_digit 10 c = None /\ prefix_radix c = None
  end.
Proof.
  intros He. unfold tail_text. destruct has_dot.
  - simpl. split; reflexivity.
  - simpl. destruct exp_text as [| c r]; [exact I |].
    destruct (ExponentPart_start c r e He) as (H1 & _ & H2 & _). now split.
Qed.

(** Reading [digits], [digits.digits], [digits e...] or
    [digits.digits e...]. *)
Lemma StrUnsignedDecimalLiteral_digits
    (di df : uint) (has_dot : bool) (exp_text : string) (e : Z) :
  di <> Nil ->
  (has_dot = false -> df = Nil) ->
  ExponentPart exp_text = Some e ->
  StrUnsignedDecimalLiteral
    (NilEmpty.string_of_uint di ++ tail_text has_dot df exp_text)
  = Some (Fin (decimal_value (eval10 df (eval10 di 0))
                 (e - Z.of_nat (nb_digits df)))).
Proof.
  intros Hdi Hdf He. unfold StrUnsignedDecimalLiteral.
  destruct (string_of_uint_cons di Hdi) as (c & v & di' & Hs & Hc & Hn & _).
  destruct (digit_char_facts c v Hc) as (_ & _ & _ & _ & HI & _).
  replace ((NilEmpty.string_of_uint di ++ tail_text has_dot df exp_text)
             =? "Infinity")%string with false
    by (rewrite Hs; simpl; now rewrite HI).
  pose proof (tail_text_start has_dot df exp_text e He) as Hstart.
  rewrite scan_digits_uint
    by (destruct (tail_text has_dot df exp_text); [exact I | apply Hstart]).
  rewrite Hn. cbn [Nat.add Nat.eqb].
  assert (stops exp_text) as Hstops.
  { destruct exp_text as [| c' r']; [exact I |].
    now destruct (ExponentPart_start c' r' e He). }
  unfold tail_text. destruct has_dot.
  - cbn [String.append Ascii.eqb Bool.eqb].
    rewrite scan_digits_uint by exact Hstops.
    cbn [Nat.add]. now rewrite He.
  - rewrite (Hdf eq_refl). cbn [String.append eval10 nb_digits].
    destruct exp_text as [| c' r'].
    + now rewrite He.
    + destruct (ExponentPart_start c' r' e He) as (_ & -> & _).
      now rewrite He.
Qed.

Lemma StringToNumber_digits
    (di df : uint) (has_dot : bool) (exp_text : string) (e : Z) :
  di <> Nil ->
  (has_dot = false -> df = Nil) ->
  ExponentPart exp_text = Some e ->
  no_ws exp_text = true ->
  StringToNumber (NilEmpty.string_of_uint di ++ tail_text has_dot df exp_text)
  = Fin (decimal_value (eval10 df (eval10 di 0)) (e - Z.of_nat (nb_digits df))).
Proof.
  intros Hdi Hdf He Hws. unfold StringToNumber.
  assert (no_ws (NilEmpty.string_of_uint di ++ tail_text has_dot df exp_text) = true)
    as Hnows.
  { unfold tail_text. rewrite !no_ws_app, no_ws_uint, Hws.
    destruct has_dot; [| reflexivity]. simpl. now rewrite no_ws_uint. }
  rewrite (trim_start_no_ws _ Hnows), (trim_end_no_ws _ Hnows).
  pose proof (StrUnsignedDecimalLiteral_digits di df has_dot exp_text e Hdi Hdf He) as Hread.
  pose proof (tail_text_start has_dot df exp_text e He) as Hstart.
  destruct (string_of_uint_cons di Hdi) as (c & v & di' & Hs & Hc & _).
  destruct (digit_char_facts c v Hc) as (_ & Hplus & Hminus & _).
  rewrite Hs in *. cbn [String.append String.eqb] in *.
  assert (NonDecimalIntegerLiteral
            (String c (NilEmpty.string_of_uint di' ++ tail_text has_dot df exp_text))
          = None) as ->.
  { unfold NonDecimalIntegerLiteral.
    destruct di' as [| d0 | d0 | d0 | d0 | d0 | d0 | d0 | d0 | d0 | d0];
      cbn [NilEmpty.string_of_uint String.append];
      try (now destruct (c =? "0")%char).
    destruct (tail_text has_dot df exp_text) as [| p r]; [reflexivity |].
    destruct Hstart as [_ ->]. now destruct (c =? "0")%char. }
  unfold StrDecimalLiteral. rewrite Hplus, Hminus, Hread. reflexivity.
Qed.

Lemma to_uint_nonnil (n : N) : N.to_uint n <> Nil.
Proof.
  destruct n; [discriminate | apply DecimalPos.Unsigned.to_uint_nonnil].
Qed.

Lemma nb_digits_tenfold (q : positive) :
  nb_digits (N.to_uint (10 * Npos q)) = S (nb_digits (N.to_uint (Npos q))).
Proof.
  change (N.to_uint (10 * Npos q))
    with (Decimal.rev (DecimalPos.Unsigned.to_lu (10 * Npos q))).
  rewrite DecimalPos.Unsigned.to_ldec_tenfold, nb_digits_rev.
  cbn [nb_digits]. f_equal. symmetry. apply nb_digits_rev.
Qed.

Lemma strip10_spec (fuel : nat) (n s : N) (j : nat) :
  strip10 fuel n = (s, j) ->
  n <> 0 ->
  n = s * 10 ^ N.of_nat j
  /\ s <> 0
  /\ nb_digits (N.to_uint n) = (nb_digits (N.to_uint s) + j)%nat.
Proof.
  revert n s j. induction fuel as [| fuel IH]; intros n s j; cbn [strip10].
  - intros [= <- <-] Hn. rewrite N.mul_1_r, Nat.add_0_r. auto.
  - destruct (N.eqb_spec (n mod 10) 0) as [Hmod | Hmod].
    + destruct (strip10 fuel (n / 10)) as [s' j'] eqn:Hrec.
      intros [= <- <-] Hn.
      assert (n = 10 * (n / 10)) as Hdiv.
      { rewrite (N.div_mod n 10) at 1 by discriminate. lia. }
      assert (n / 10 <> 0) as Hq by lia.
      destruct (IH _ _ _ Hrec Hq) as (Hval & Hs & Hdig).
      split; [| split; [exact Hs |]].
      * rewrite Nat2N.inj_succ, N.pow_succ_r', Hdiv at 1. rewrite Hval at 1. lia.
      * rewrite Hdiv. destruct (n / 10) as [| q]; [contradiction |].
        rewrite nb_digits_tenfold, Hdig. lia.
    + intros [= <- <-] Hn. rewrite N.mul_1_r, Nat.add_0_r. auto.
Qed.

Lemma hd_tl_uint (d : uint) :
  d <> Nil ->
  hd_uint d <> Nil
  /\ (exists c, NilEmpty.string_of_uint d
                = String c (NilEmpty.string_of_uint (tl_uint d))
                /\ NilEmpty.string_of_uint (hd_uint d) = String c "")
  /\ eval10 d 0 = eval10 (tl_uint d) (eval10 (hd_uint d) 0)
  /\ nb_digits d = S (nb_digits (tl_uint d)).
Proof.
  intros Hd. destruct d; [contradiction | ..];
    (split; [discriminate |]); (split; [eexists; split; reflexivity |]);
    split; reflexivity.
Qed.

Lemma string_of_uint_empty (d : uint) :
  NilEmpty.string_of_uint d = "" -> d = Nil.
Proof. destruct d; simpl; intros H; try discriminate H; reflexivity. Qed.

Lemma decimal_value_pow (m : N) (j : nat) :
  decimal_value m (Z.of_nat j) = Q2Qc (inject_Z (Z.of_N (m * 10 ^ N.of_nat j))).
Proof.
  unfold decimal_value. apply Q2Qc_eq_iff.
  rewrite N2Z.inj_mul, N2Z.inj_pow, nat_N_Z, inject_Z_mult.
  rewrite Zpower_Qpower by lia. reflexivity.
Qed.

(** Reading the text of a positive integer gives the integer back. *)
Lemma pos_toString_read (p : positive) :
  StringToNumber (pos_toString p) = of_Z (Zpos p).
Proof.
  unfold pos_toString.
  destruct (nb_digits (Pos.to_uint p) <=? 21)%nat eqn:Hn.
  - unfold digits_of_N.
    pose proof (StringToNumber_digits (N.to_uint (Npos p)) Nil false "" 0
                  (to_uint_nonnil _) (fun _ => eq_refl) eq_refl eq_refl) as H.
    unfold tail_text in H. cbn [String.append eval10 nb_digits] in H.
    rewrite string_app_nil_r, eval10_to_uint in H. rewrite H.
    unfold of_Z. f_equal.
    change (0 - Z.of_nat 0)%Z with (Z.of_nat 0).
    rewrite decimal_value_pow. now rewrite N.mul_1_r.
  - destruct (strip10 (nb_digits (Pos.to_uint p)) (Npos p)) as [s j] eqn:Hstrip.
    destruct (strip10_spec _ _ _ _ Hstrip) as (Hval & Hs & Hdig); [discriminate |].
    unfold digits_of_N.
    destruct (hd_tl_uint (N.to_uint s) (to_uint_nonnil s))
      as (Hhd & (c & Htext & Hc) & Heval & Hlen).
    rewrite Htext.
    set (rest := NilEmpty.string_of_uint (tl_uint (N.to_uint s))).
    set (E := N.to_uint (N.of_nat (nb_digits (Pos.to_uint p) - 1))).
    assert ((String c (if (rest =? "")%string then "" else "." ++ rest)
               ++ "e+" ++ NilEmpty.string_of_uint E)%string
            = (NilEmpty.string_of_uint (hd_uint (N.to_uint s))
                 ++ tail_text (negb (rest =? "")%string) (tl_uint (N.to_uint s))
                      ("e+" ++ NilEmpty.string_of_uint E))%string) as ->.
    { rewrite Hc. unfold tail_text. fold rest.
      now destruct (rest =? "")%string. }
    rewrite (StringToNumber_digits (hd_uint (N.to_uint s)) (tl_uint (N.to_uint s))
               (negb (rest =? "")%string) ("e+" ++ NilEmpty.string_of_uint E)
               (Z.of_N (eval10 E 0))).
    + rewrite <- Heval. unfold E. rewrite !eval10_to_uint.
      unfold of_Z. f_equal.
      change (N.to_uint (Npos p)) with (Pos.to_uint p) in Hdig.
      replace (Z.of_N (N.of_nat (nb_digits (Pos.to_uint p) - 1))
               - Z.of_nat (nb_digits (tl_uint (N.to_uint s))))%Z
        with (Z.of_nat j) by lia.
      rewrite decimal_value_pow. now rewrite <- Hval.
    + exact Hhd.
    + intros Hdot. apply Bool.negb_false_iff, String.eqb_eq in Hdot.
      now apply string_of_uint_empty.
    + apply ExponentPart_plus, to_uint_nonnil.
    + simpl. apply no_ws_uint.
Qed.

End IntegerText.

(** ** The people count *)

Section PeopleCount.

Local Open Scope Qc_scope.

Lemma Qfloor_of_Z (k : Z) : Qfloor (Q2Qc (inject_Z k)) = k.
Proof.
  cbn [this Q2Qc]. rewrite (Qfloor_comp _ _ (Qred_correct (inject_Z k))).
  apply Qfloor_Z.
Qed.

Lemma Number_toString_of_Z (k : Z) : Number_toString (of_Z k) = integer_toString k.
Proof. unfold Number_toString, of_Z. now rewrite Qfloor_of_Z. Qed.

Lemma Math_floor_of_Z (k : Z) : Math_floor (of_Z k) = of_Z k.
Proof. unfold Math_floor, of_Z at 1. now rewrite Qfloor_of_Z. Qed.

Lemma Math_max_of_Z (a b : Z) : Math_max (of_Z a) (of_Z b) = of_Z (Z.max a b).
Proof.
  unfold of_Z. destruct (Z.max_spec a b) as [[Hlt ->] | [Hle ->]].
  - apply Math_max_Fin_r, of_Z_le. lia.
  - apply Math_max_Fin_l, of_Z_le. lia.
Qed.

Lemma of_Z_lt (a b : Z) : (a < b)%Z -> Q2Qc (inject_Z a) < Q2Qc (inject_Z b).
Proof. intros H. qc_to_q. now rewrite <- Zlt_Qlt. Qed.

(** Reading the text of an integer of at least 1 gives the integer back. *)
Lemma integer_toString_read (k : Z) :
  (1 <= k)%Z -> Number (Str (integer_toString k)) = of_Z k.
Proof.
  destruct k as [| p | p]; try lia. intros _. apply pos_toString_read.
Qed.

(** A stored people text is left as it is by both people handlers. *)
Lemma stored_people_stable (k : Z) (st : AppState) :
  (1 <= k)%Z ->
  let text := integer_toString k in
  onPeopleBlur (Str text) (setPeopleInput text st) = setPeopleInput text st
  /\ onPeopleChange (Str text) (setPeopleInput text st) = setPeopleInput text st.
Proof.
  intros Hk. cbv zeta. unfold onPeopleBlur, onPeopleChange.
  rewrite (integer_toString_read k Hk).
  assert ((of_Z k <? one)%js = false) as ->.
  { apply lt_Fin_false, of_Z_le. exact Hk. }
  assert ((of_Z k <=? zero)%js = false) as ->.
  { apply le_Fin_false, of_Z_lt. lia. }
  cbn [Number_isFinite of_Z negb orb].
  split; [reflexivity |].
  change (Fin (Q2Qc (inject_Z k))) with (of_Z k).
  rewrite Math_floor_of_Z. unfold one. rewrite Math_max_of_Z, Number_toString_of_Z.
  now rewrite Z.max_r by exact Hk.
Qed.

(** What the edit handler stores. *)
Lemma onPeopleChange_stores (raw : value) (st : AppState) :
  exists k : Z,
    (1 <= k)%Z
    /\ onPeopleChange raw st = setPeopleInput (integer_toString k) st
    /\ (Number_isFinite (Number raw) = false \/ (Number raw <=? zero)%js = true ->
        k = 1%Z)
    /\ (forall q, Number raw = Fin q -> 0 < q -> k = Z.max 1 (Qfloor q)).
Proof.
  unfold onPeopleChange.
  destruct (Number raw) as [q | | |] eqn:Hn;
    try (exists 1%Z; repeat split; [lia | intros q H; discriminate H]).
  cbn [Number_isFinite negb orb].
  destruct (Fin q <=? zero)%js eqn:Hle.
  - exists 1%Z. split; [lia |]. split; [reflexivity |]. split; [reflexivity |].
    intros q' [= <-] Hq. change zero with (Fin 0) in Hle. apply le_Fin in Hle.
    contradiction (Qcle_not_lt _ _ Hle Hq).
  - exists (Z.max 1 (Qfloor q)). split; [lia |].
    split; [| split].
    + cbn [Math_floor]. unfold one. now rewrite Math_max_of_Z, Number_toString_of_Z.
    + intros [H | H]; discriminate H.
    + now intros q' [= <-] _.
Qed.

(** Whenever the blur handler writes, it writes what the edit handler would
    store for the same input. *)
Lemma onPeopleBlur_writes_as_edit (raw : value) (st : AppState) :
  negb (Number_isFinite (Number raw)) || (Number raw <? one)%js = true ->
  onPeopleBlur raw st = onPeopleChange raw st.
Proof.
  intros H. unfold onPeopleBlur. rewrite H.
  destruct (onPeopleChange_stores raw st) as (k & Hk & -> & Hone & Hfloor).
  assert (k = 1%Z) as ->; [| reflexivity].
  destruct (Number raw) as [q | | |] eqn:Hn; try (apply Hone; now left).
  cbn [Number_isFinite negb orb] in H. unfold one, of_Z in H. apply lt_Fin in H.
  destruct (Qclt_le_dec 0 q) as [Hpos | Hneg].
  - rewrite (Hfloor q eq_refl Hpos).
    pose proof (Qfloor_le q) as Hf.
    assert (inject_Z (Qfloor q) < inject_Z 1)%Q as Hlt.
    { unfold Qclt in H. cbn [this Q2Qc] in H. rewrite Qred_correct in H. lra. }
    rewrite <- Zlt_Qlt in Hlt. lia.
  - apply Hone. right. change zero with (Fin 0). now apply le_Fin.
Qed.

(** C4.  For every value of the people input, the edit handler stores the
    text of an integer of at least 1: "1" when the parsed number is not
    finite or not above 0, and otherwise the floor of the number, raised to
    1 when below; the stored text reads back as that integer, so that the
    blur handler, given the stored text, leaves the state as it is, as does
    the edit handler given it again; and whenever the blur handler writes
    (its input is not finite or below 1) it writes what the edit handler
    stores for that input. *)
Theorem people_edit_stores_integer (raw : value) (st : AppState) :
  let n := Number raw in
  let st' := onPeopleChange raw st in
  (exists k : Z,
      (1 <= k)%Z
      /\ peopleInput st' = Number_toString (of_Z k)
      /\ Number (Str (peopleInput st')) = of_Z k)
  /\ (Number_isFinite n = false \/ (n <=? zero)%js = true -> peopleInput st' = "1")
  /\ (forall q, n = Fin q -> 0 < q ->
        peopleInput st' = Number_toString (Math_max one (Math_floor n))
        /\ Math_max one (Math_floor n) = of_Z (Z.max 1 (Qfloor q)))
  /\ onPeopleBlur (Str (peopleInput st')) st' = st'
  /\ onPeopleChange (Str (peopleInput st')) st' = st'
  /\ (negb (Number_isFinite n) || (n <? one)%js = true ->
      onPeopleBlur raw st = st')
  /\ (billInput st' = billInput st /\ selectedTip st' = selectedTip st
      /\ customTipInput st' = customTipInput st
      /\ lastPresetTipRef st' = lastPresetTipRef st
      /\ roundingMode st' = roundingMode st).
Proof.
  cbv zeta.
  destruct (onPeopleChange_stores raw st) as (k & Hk & Hst & Hone & Hfloor).
  rewrite Hst. cbn [setPeopleInput peopleInput billInput selectedTip customTipInput
                    lastPresetTipRef roundingMode].
  destruct (stored_people_stable k st Hk) as [Hblur Hedit].
  split; [| split; [| split; [| split; [| split; [| split]]]]].
  - exists k. rewrite Number_toString_of_Z. split; [exact Hk |].
    split; [reflexivity | now apply integer_toString_read].
  - intros H. now rewrite (Hone H).
  - intros q Hq Hpos. rewrite (Hfloor q Hq Hpos), Hq.
    cbn [Math_floor]. unfold one. rewrite Math_max_of_Z, Number_toString_of_Z.
    now split.
  - exact Hblur.
  - exact Hedit.
  - intros H. rewrite <- Hst. now apply onPeopleBlur_writes_as_edit.
  - repeat split.
Qed.

(** After an edit of the people count the people error flag is down and the
    clamped count is the stored integer. *)
Lemma people_flag_down_after_edit (raw : value) (st : AppState) :
  v_peopleHasError (App (onPeopleChange raw st)) = false
  /\ Number_toString (v_peopleClamped (App (onPeopleChange raw st)))
     = peopleInput (onPeopleChange raw st).
Proof.
  destruct (onPeopleChange_stores raw st) as (k & Hk & -> & _).
  cbn [App v_peopleHasError v_peopleClamped setPeopleInput peopleInput].
  unfold peopleRaw.
  rewrite (coerceNumber_of_finite _ _ (integer_toString_read k Hk)).
  change (Fin (Q2Qc (inject_Z k))) with (of_Z k).
  assert (or_else (of_Z k) zero = of_Z k) as ->.
  { unfold or_else, ToBoolean, of_Z.
    assert (sgn (Q2Qc (inject_Z k)) = Gt) as ->; [| reflexivity].
    apply sgn_Gt. apply (of_Z_lt 0 k). lia. }
  rewrite Math_floor_of_Z. unfold one. rewrite Math_max_of_Z, Z.max_r by exact Hk.
  split.
  - apply lt_Fin_false, of_Z_le. exact Hk.
  - apply Number_toString_of_Z.
Qed.

End PeopleCount.

(** ** The examples of the specification *)

Section Examples.

(** Bill 100 at the default 15%: tip $15.00, total $115.00. *)
Example bill_100_default_tip :
  v_results (App (onBillChange "100" initialState))
  = [mkRow "Tip Amount" "$15.00"; mkRow "Total" "$115.00"].
Proof. reflexivity. Qed.

(** Bill 33 with the tip rounded: base tip 4.95, tip $5.00, total $38.00. *)
Example bill_33_round_tip :
  v_results (App (onRoundingModeChange TIP (onBillChange "33" initialState)))
  = [mkRow "Tip Amount" "$5.00"; mkRow "Total" "$38.00"].
Proof. reflexivity. Qed.

(** Bill 33 with the total rounded: base total 37.95, total $38.00, tip
    $5.00; then bill 10 at a custom 1%: total $10.00, tip $0.00. *)
Example bill_33_round_total :
  let st := onRoundingModeChange TOTAL (onBillChange "33" initialState) in
  v_results (App st) = [mkRow "Tip Amount" "$5.00"; mkRow "Total" "$38.00"]
  /\ v_results (App (onCustomTipChange "1" (onBillChange "10" st)))
     = [mkRow "Tip Amount" "$0.00"; mkRow "Total" "$10.00"].
Proof. split; reflexivity. Qed.

(** Bill 120 between three at 15%: tip $18.00, total $138.00, $6.00 and
    $46.00 a person. *)
Example bill_120_three_people :
  v_results (App (onPeopleChange (Str "3") (onBillChange "120" initialState)))
  = [mkRow "Tip Amount" "$18.00"; mkRow "Total" "$138.00";
     mkRow "Tip / person (3)" "$6.00"; mkRow "Total / person (3)" "$46.00"].
Proof. reflexivity. Qed.

(** Bill 33 between two with the total rounded: the per-person amounts
    divide the rounded 5 and 38, not the base 4.95 and 37.95. *)
Example rounded_amounts_are_split :
  v_results
    (App (onRoundingModeChange TOTAL
            (onPeopleChange (Str "2") (onBillChange "33" initialState))))
  = [mkRow "Tip Amount" "$5.00"; mkRow "Total" "$38.00";
     mkRow "Tip / person (2)" "$2.50"; mkRow "Total / person (2)" "$19.00"].
Proof. reflexivity. Qed.

(** A people count of 0, of "abc" or of 2.9 is stored as 1, 1 and 2. *)
Example people_edits_clamp :
  peopleInput (onPeopleChange (Str "0") initialState) = "1"
  /\ peopleInput (onPeopleChange (Str "abc") initialState) = "1"
  /\ peopleInput (onPeopleChange (Str "2.9") initialState) = "2".
Proof. repeat split. Qed.

(** A custom 25% on a bill of 200: no preset is pressed, tip $50.00, total
    $250.00; a negative custom -5 on a bill of 100 raises the tip flag and
    counts as 0%. *)
Example custom_tip_overrides_presets :
  let st := onCustomTipChange "25" (onBillChange "200" initialState) in
  map snd (v_presets (App st)) = [false; false; false; false]
  /\ v_results (App st) = [mkRow "Tip Amount" "$50.00"; mkRow "Total" "$250.00"]
  /\ v_tipHasError (App (onCustomTipChange "-5" (onBillChange "100" initialState)))
     = true
  /\ v_results (App (onCustomTipChange "-5" (onBillChange "100" initialState)))
     = [mkRow "Tip Amount" "$0.00"; mkRow "Total" "$100.00"].
Proof. repeat split. Qed.

(** A bill of 10^12 at a custom 20%. *)
Example large_bill :
  v_results
    (App (onCustomTipChange "20" (onBillChange "1000000000000" initialState)))
  = [mkRow "Tip Amount" "$200000000000.00"; mkRow "Total" "$1200000000000.00"].
Proof. reflexivity. Qed.

(** Bill 1.20 at the 10% preset with the total rounded: the total shown is
    the bill, not a whole unit. *)
Example round_total_below_bill :
  v_results
    (App (onRoundingModeChange TOTAL
            (onSelectPreset (of_Z 10) (onBillChange "1.20" initialState))))
  = [mkRow "Tip Amount" "$0.00"; mkRow "Total" "$1.20"].
Proof. reflexivity. Qed.

(** Coercion: text of a number, of a negative number, of no number, of an
    infinity, and blank text. *)
Example coerceNumber_examples :
  coerceNumber (Str "12.5") = Fin (Q2Qc (25 # 2))
  /\ coerceNumber (Str "-10") = of_Z (-10)
  /\ (coerceNumber (Str "-10") <? zero)%js = true
  /\ coerceNumber (Str "abc") = zero
  /\ coerceNumber (Str "Infinity") = zero
  /\ coerceNumber (Str "  ") = zero.
Proof. repeat split; number_compute. Qed.

(** Reading numbers: a fraction, an exponent, a hexadecimal literal, text
    with a stray character. *)
Example Number_examples :
  Number (Str " 0.25 ") = Fin (Q2Qc (1 # 4))
  /\ Number (Str "1e3") = of_Z 1000
  /\ Number (Str "0x1F") = of_Z 31
  /\ Number (Str "1_000") = NaN
  /\ Number (Str "-Infinity") = NInf.
Proof. repeat split; number_compute. Qed.

(** Printing integers: plain digits below 10^21 and an exponent from there. *)
Example Number_toString_examples :
  Number_toString (of_Z 138) = "138"
  /\ Number_toString (of_Z (10 ^ 20)) = "100000000000000000000"
  /\ Number_toString (of_Z (10 ^ 21)) = "1e+21"
  /\ Number_toString (of_Z (25 * 10 ^ 21)) = "2.5e+22".
Proof. repeat split. Qed.

End Examples.

(** ** Rounding to whole units *)

Section Rounding.

Local Open Scope Qc_scope.

Lemma round_half_up_mono (x y : Qc) :
  x <= y -> (round_half_up x <= round_half_up y)%Z.
Proof.
  intros H. unfold round_half_up. apply Qfloor_resp_le.
  unfold Qcle in H. lra.
Qed.

Lemma round_half_up_of_Z (z : Z) : round_half_up (Q2Qc (inject_Z z)) = z.
Proof.
  symmetry. apply round_half_up_unique.
  cbn [this Q2Qc]. rewrite Qred_correct. split; lra.
Qed.

Lemma round_half_up_add_Z (x : Qc) (z : Z) :
  round_half_up (x + Q2Qc (inject_Z z)) = (round_half_up x + z)%Z.
Proof.
  symmetry. apply round_half_up_unique.
  destruct (round_half_up_nearest x) as [Hl Hu].
  rewrite inject_Z_plus.
  unfold Qcplus, Q2Qc. cbn [this]. rewrite !Qred_correct. split; lra.
Qed.

(** X1.  [roundToWholeCurrency] returns a whole number within half a unit of
    its argument; it leaves whole numbers as they are, so rounding twice is
    rounding once; it never reverses the order of two amounts; and an amount
    that is not finite rounds to 0. *)
Theorem roundToWholeCurrency_properties :
  (forall x : Qc, exists z : Z,
      roundToWholeCurrency (Fin x) = of_Z z
      /\ (inject_Z z - (1 # 2) <= x < inject_Z z + (1 # 2))%Q)
  /\ (forall z : Z, roundToWholeCurrency (of_Z z) = of_Z z)
  /\ (forall x : number,
        roundToWholeCurrency (roundToWholeCurrency x) = roundToWholeCurrency x)
  /\ (forall x y : Qc,
        x <= y ->
        (roundToWholeCurrency (Fin x) <=? roundToWholeCurrency (Fin y))%js = true)
  /\ (forall x : number,
        Number_isFinite x = false -> roundToWholeCurrency x = zero).
Proof.
  assert (forall z : Z, roundToWholeCurrency (of_Z z) = of_Z z) as Hfix.
  { intros z. unfold of_Z. rewrite roundToWholeCurrency_Fin.
    now rewrite round_half_up_of_Z. }
  split; [| split; [| split; [| split]]].
  - intros x. exists (round_half_up x). split; [reflexivity |].
    apply round_half_up_nearest.
  - exact Hfix.
  - intros x. destruct (roundToWholeCurrency_finite x) as [z ->]. apply Hfix.
  - intros x y Hxy. rewrite !roundToWholeCurrency_Fin. unfold of_Z.
    apply le_Fin, of_Z_le. now apply round_half_up_mono.
  - intros x Hx. destruct x; try discriminate Hx; reflexivity.
Qed.

End Rounding.

(** ** The three modes compared *)

Section Modes.

Local Open Scope Qc_scope.

Lemma baseTip_nonneg (bill tipPercent : Qc) :
  0 <= bill -> 0 <= tipPercent -> 0 <= bill * tipPercent / Q2Qc 100.
Proof.
  intros Hb Ht. apply Qcdiv_nonneg; [now apply Qcmult_nonneg | now vm_compute].
Qed.



Lemma Amounts_eq (a b : Amounts) :
  tipAmount a = tipAmount b -> totalAmount a = totalAmount b -> a = b.
Proof. destruct a, b. cbn. now intros -> ->. Qed.

(** The round-total mode on finite amounts: the total is the larger of the
    bill and the rounded base total, and the tip is the total less the
    bill. *)
Lemma total_mode_max (bill tipPercent : Qc) :
  exists total : Qc,
    deriveAmounts TOTAL (Fin bill) (Fin tipPercent)
    = {| tipAmount := Fin (total - bill); totalAmount := Fin total |}
    /\ bill <= total
    /\ Q2Qc (inject_Z (roundedBaseTotal bill tipPercent)) <= total
    /\ (total = bill
        \/ total = Q2Qc (inject_Z (roundedBaseTotal bill tipPercent))).
Proof.
  pose proof (total_mode_cases bill tipPercent) as [Hge Hle]. cbv zeta in Hge, Hle.
  destruct (Qclt_le_dec bill (Q2Qc (inject_Z (roundedBaseTotal bill tipPercent))))
    as [H | H].
  - apply Qclt_le_weak in H. destruct (Hge H) as [Ht Hu].
    eexists. split; [apply Amounts_eq; [exact Ht | exact Hu] |].
    split; [exact H |]. split; [apply Qcle_refl | now right].
  - destruct (Hle H) as [Ht Hu].
    exists bill. split.
    + apply Amounts_eq; [| exact Hu]. rewrite Ht. cbn [tipAmount].
      unfold zero, of_Z. f_equal. apply Qc_is_canon. qc_to_q. ring.
    + split; [apply Qcle_refl |]. split; [exact H | now left].
Qed.



Lemma baseTip_mono (bill bill' tipPercent tipPercent' : Qc) :
  0 <= bill -> bill <= bill' -> 0 <= tipPercent -> tipPercent <= tipPercent' ->
  bill * tipPercent / Q2Qc 100 <= bill' * tipPercent' / Q2Qc 100.
Proof.
  intros Hb Hbb Ht Htt.
  assert (bill * tipPercent <= bill' * tipPercent') as H.
  { apply Qcle_trans with (bill' * tipPercent).
    - now apply Qcmult_le_compat_r.
    - rewrite (Qcmult_comm bill' tipPercent), (Qcmult_comm bill' tipPercent').
      apply Qcmult_le_compat_r; [exact Htt |].
      now apply Qcle_trans with bill. }
  unfold Qcdiv. apply Qcmult_le_compat_r; [exact H | now vm_compute].
Qed.



(** With the total rounded the tip can fall as the bill grows: at 10% a
    bill of 1.40 gives a total of 2 and a tip of 0.60, a bill of 1.50 the
    same total and a tip of 0.50. *)
Lemma total_mode_tip_not_monotone :
  let tip bill := tipAmount (deriveAmounts TOTAL (Fin bill) (Fin (Q2Qc 10))) in
  tip (Q2Qc (14 # 10)) = Fin (Q2Qc (6 # 10))
  /\ tip (Q2Qc (15 # 10)) = Fin (Q2Qc (5 # 10)).
Proof. cbv zeta. split; number_compute. Qed.

End Modes.

(** ** The amounts of a render *)

Section Amounts.

Local Open Scope Qc_scope.

Lemma of_Z_pos (k : Z) : (1 <= k)%Z -> 0 < Q2Qc (inject_Z k).
Proof. intros H. apply (of_Z_lt 0 k). lia. Qed.

Lemma of_Z_inj (a b : Z) : of_Z a = of_Z b -> a = b.
Proof.
  intros H.
  apply (f_equal (fun x => match x with Fin q => Qfloor q | _ => 0%Z end)) in H.
  unfold of_Z in H. cbv beta iota in H. now rewrite !Qfloor_of_Z in H.
Qed.

Lemma Qcdiv_mult_cancel (t d : Qc) : 0 < d -> t / d * d = t.
Proof.
  intros Hd. unfold Qcdiv. rewrite <- Qcmult_assoc, Qcmult_inv_l, Qcmult_1_r.
  - reflexivity.
  - intros H. rewrite H in Hd. discriminate Hd.
Qed.

Lemma Qcdiv_1_r (t : Qc) : t / Q2Qc (inject_Z 1) = t.
Proof.
  rewrite <- (Qcdiv_mult_cancel t (Q2Qc (inject_Z 1))) at 2 by reflexivity.
  symmetry. apply Qcmult_1_r.
Qed.



Lemma App_total_sum (st : AppState) :
  v_totalAmount (App st) = (v_billForCalc (App st) + v_tipAmount (App st))%js.
Proof.
  cbn [App v_totalAmount v_billForCalc v_tipAmount].
  destruct (roundingMode st); reflexivity.
Qed.

Lemma billForCalc_cases (st : AppState) :
  exists q : Qc,
    coerceNumber (Str (billInput st)) = Fin q
    /\ (q <= 0 -> v_billForCalc (App st) = zero)
    /\ (0 <= q -> v_billForCalc (App st) = Fin q).
Proof.
  destruct (coerceNumber_finite (Str (billInput st))) as [q Hq].
  exists q. split; [exact Hq |].
  cbn [App v_billForCalc]. unfold billRaw. rewrite Hq. change zero with (Fin 0).
  split; intros H; [now apply Math_max_Fin_l | now apply Math_max_Fin_r].
Qed.

(** X6.  For every state whose selected tip is a preset the total is never
    below the bill used for calculation.  A bill text that is empty, not a
    number, zero or negative gives a tip, a total and per-person amounts of
    0, every row of the results showing $0.00; a positive bill gives a
    positive total. *)
Theorem total_covers_bill (st : AppState) :
  In (selectedTip st) TIP_PRESETS ->
  let v := App st in
  (v_billForCalc v <=? v_totalAmount v)%js = true
  /\ ((coerceNumber (Str (billInput st)) <=? zero)%js = true ->
      v_tipAmount v = zero /\ v_totalAmount v = zero
      /\ v_perPersonTip v = zero /\ v_perPersonTotal v = zero
      /\ Forall (fun r => resultValue r = "$0.00") (v_results v))
  /\ ((zero <? coerceNumber (Str (billInput st)))%js = true ->
      (zero <? v_totalAmount v)%js = true).
Proof.
  intros Hsel. cbv zeta. apply presets_finite in Hsel.
  destruct (App_amounts_nonneg st Hsel) as [(t & Ht & Ht0) _].
  destruct (billForCalc_nonneg st) as (b & Hb & Hb0).
  destruct (billForCalc_cases st) as (q & Hq & Hneg & Hpos).
  pose proof (App_total_sum st) as Hsum. rewrite Hb, Ht in Hsum. cbn [add] in Hsum.
  split; [| split].
  - rewrite Hsum, Hb. apply le_Fin. clear - Ht0. qc_to_q. lra.
  - rewrite Hq. change zero with (Fin 0). rewrite le_Fin. intros Hle.
    assert (tipAmount (deriveAmounts (roundingMode st) (v_billForCalc (App st))
                         (v_tipPercentForCalc (App st))) = Fin 0
            /\ totalAmount (deriveAmounts (roundingMode st) (v_billForCalc (App st))
                              (v_tipPercentForCalc (App st))) = Fin 0) as [Htip Htot].
    { rewrite (Hneg Hle).
      destruct (tipPercentForCalc_nonneg st Hsel) as (p & -> & _).
      now rewrite deriveAmounts_zero_bill. }
    destruct (App_deriveAmounts st) as [Htip' Htot'].
    rewrite <- Htip' in Htip. rewrite <- Htot' in Htot.
    destruct (peopleClamped_integer st) as (k & Hk & Hp).
    assert (forall x, x = Fin 0 -> (x / v_peopleClamped (App st))%js = Fin 0)
      as Hshare.
    { intros x ->. rewrite Hp. unfold of_Z.
      rewrite div_Fin_pos by now apply of_Z_pos.
      f_equal. unfold Qcdiv. apply Qcmult_0_l. }
    assert (formatCurrency (Fin 0) = "$0.00") as Hfmt by reflexivity.
    split; [exact Htip |]. split; [exact Htot |].
    split; [exact (Hshare _ Htip) |]. split; [exact (Hshare _ Htot) |].
    change (v_results (App st)) with
      ([ {| resultLabel := "Tip Amount";
            resultValue := formatCurrency (v_tipAmount (App st)) |};
         {| resultLabel := "Total";
            resultValue := formatCurrency (v_totalAmount (App st)) |} ]
       ++ (if (v_peopleClamped (App st) >? one)%js then
             [ {| resultLabel :=
                    "Tip / person (" ++ Number_toString (v_peopleClamped (App st))
                      ++ ")";
                  resultValue :=
                    formatCurrency
                      (v_tipAmount (App st) / v_peopleClamped (App st))%js |};
               {| resultLabel :=
                    "Total / person (" ++ Number_toString (v_peopleClamped (App st))
                      ++ ")";
                  resultValue :=
                    formatCurrency
                      (v_totalAmount (App st) / v_peopleClamped (App st))%js |} ]
           else []))%list.
    rewrite (Hshare _ Htip), (Hshare _ Htot), Htip, Htot, Hfmt.
    destruct (v_peopleClamped (App st) >? one)%js; repeat constructor.
  - rewrite Hq. change zero with (Fin 0). rewrite lt_Fin. intros Hlt.
    rewrite Hsum. apply lt_Fin.
    rewrite (Hpos (Qclt_le_weak _ _ Hlt)) in Hb. injection Hb as ->.
    clear - Hlt Ht0. qc_to_q. lra.
Qed.

Lemma total_covers_bill_abc :
  let st := onBillChange "abc" initialState in
  In (selectedTip st) TIP_PRESETS
  /\ (coerceNumber (Str (billInput st)) <=? zero)%js = true
  /\ Forall (fun r => resultValue r = "$0.00") (v_results (App st)).
Proof.
  cbv zeta.
  assert (In (selectedTip (onBillChange "abc" initialState)) TIP_PRESETS) as Hsel.
  { right. left. reflexivity. }
  assert ((coerceNumber (Str (billInput (onBillChange "abc" initialState)))
             <=? zero)%js = true) as Hle by reflexivity.
  split; [exact Hsel |]. split; [exact Hle |].
  destruct (total_covers_bill (onBillChange "abc" initialState) Hsel)
    as (_ & H & _).
  exact (proj2 (proj2 (proj2 (proj2 (H Hle))))).
Defined.

End Amounts.

(** ** What holds after every sequence of events *)

Section Reachable.

Local Open Scope Qc_scope.

(** A state whose people text is that of an integer of at least 1. *)
Lemma stored_people_view (k : Z) (st : AppState) :
  (1 <= k)%Z ->
  peopleInput st = integer_toString k ->
  v_peopleHasError (App st) = false /\ v_peopleClamped (App st) = of_Z k.
Proof.
  intros Hk Htext.
  cbn [App v_peopleHasError v_peopleClamped]. unfold peopleRaw. rewrite Htext.
  rewrite (coerceNumber_of_finite _ _ (integer_toString_read k Hk)).
  change (Fin (Q2Qc (inject_Z k))) with (of_Z k).
  assert (or_else (of_Z k) zero = of_Z k) as ->.
  { unfold or_else, ToBoolean, of_Z.
    assert (sgn (Q2Qc (inject_Z k)) = Gt) as ->; [| reflexivity].
    apply sgn_Gt. apply (of_Z_lt 0 k). lia. }
  rewrite Math_floor_of_Z. unfold one. rewrite Math_max_of_Z, Z.max_r by exact Hk.
  split; [| reflexivity].
  apply lt_Fin_false, of_Z_le. exact Hk.
Qed.

Lemma people_text_invariant (es : list Event) :
  exists k : Z, (1 <= k)%Z /\ peopleInput (run es) = integer_toString k.
Proof.
  induction es as [| e es IH] using rev_ind.
  - exists 1%Z. split; [lia | reflexivity].
  - rewrite run_snoc. destruct IH as (k & Hk & Htext).
    destruct e; cbn [handle]; try (exists k; split; [exact Hk | exact Htext]).
    + destruct (onPeopleChange_stores raw (run es)) as (k' & Hk' & -> & _).
      exists k'. split; [exact Hk' | reflexivity].
    + unfold onPeopleBlur. destruct (negb _ || _).
      * exists 1%Z. split; [lia | reflexivity].
      * exists k. split; [exact Hk | exact Htext].
Qed.

(** X7.  After every sequence of events the people text is that of an
    integer of at least 1, the clamped people count is that integer and the
    people error flag is down: through the handlers the people error is
    never shown, and the per-person rows are shown exactly when the stored
    integer is above 1. *)
Theorem people_count_always_valid (es : list Event) :
  let st := run es in
  exists k : Z,
    (1 <= k)%Z
    /\ peopleInput st = Number_toString (of_Z k)
    /\ Number (Str (peopleInput st)) = of_Z k
    /\ v_peopleClamped (App st) = of_Z k
    /\ v_peopleHasError (App st) = false
    /\ List.length (v_results (App st)) = (if (1 <? k)%Z then 4%nat else 2%nat).
Proof.
  cbv zeta. destruct (people_text_invariant es) as (k & Hk & Htext).
  destruct (stored_people_view k (run es) Hk Htext) as [Herr Hclamp].
  exists k. split; [exact Hk |]. rewrite Number_toString_of_Z.
  split; [exact Htext |].
  split; [rewrite Htext; now apply integer_toString_read |].
  split; [exact Hclamp |]. split; [exact Herr |].
  cbn [App v_results]. cbn [App v_peopleClamped] in Hclamp. rewrite Hclamp.
  unfold gt, one, of_Z.
  destruct (Z.ltb_spec 1 k) as [H | H].
  - assert ((Fin (Q2Qc (inject_Z 1)) <? Fin (Q2Qc (inject_Z k)))%js = true) as ->.
    { apply lt_Fin. now apply of_Z_lt. }
    reflexivity.
  - assert ((Fin (Q2Qc (inject_Z 1)) <? Fin (Q2Qc (inject_Z k)))%js = false) as ->.
    { apply lt_Fin_false. now apply of_Z_le. }
    reflexivity.
Qed.

(** X8.  After every sequence of events with preset clicks on the four
    presets, the selected preset and the remembered last preset are the same
    member of [TIP_PRESETS]; so an edit of the custom text changes the
    custom text alone, the tip error flag is up only while a custom text
    with a negative value is active, and a preset click always lowers it. *)
Theorem selected_preset_is_remembered (es : list Event) :
  Forall enabled es ->
  let st := run es in
  selectedTip st = lastPresetTipRef st
  /\ In (selectedTip st) TIP_PRESETS
  /\ (forall next : string,
        onCustomTipChange next st
        = {| billInput := billInput st;
             selectedTip := selectedTip st;
             customTipInput := next;
             lastPresetTipRef := lastPresetTipRef st;
             peopleInput := peopleInput st;
             roundingMode := roundingMode st |})
  /\ (v_tipHasError (App st) = true ->
      customTipInput st <> ""
      /\ (customTipRaw (customTipInput st) <? zero)%js = true
      /\ v_tipPercentForCalc (App st) = zero)
  /\ (forall pct : number,
        In pct TIP_PRESETS -> v_tipHasError (App (onSelectPreset pct st)) = false).
Proof.
  intros Hen. cbv zeta.
  destruct (run_selected es Hen) as (Hsel & Href & Hin).
  assert (forall pct, In pct TIP_PRESETS -> (pct <? zero)%js = false) as Hpos.
  { intros pct [<- | [<- | [<- | [<- | []]]]]; reflexivity. }
  split; [congruence |]. split; [now rewrite Hsel |].
  split; [| split].
  - intros next. unfold onCustomTipChange. rewrite Href, <- Hsel.
    now destruct (next =? "")%string.
  - intros Herr. pose proof (tipHasError_clamps (run es) Herr) as Hclamp.
    cbn [App v_tipHasError] in Herr.
    destruct (String.eqb_spec (customTipInput (run es)) "") as [Hc | Hc].
    + cbn [negb] in Herr. rewrite Hsel, (Hpos _ Hin) in Herr. discriminate Herr.
    + cbn [negb] in Herr. now repeat split.
  - intros pct Hpct. cbn. now apply Hpos.
Qed.

Lemma selected_preset_is_remembered_18 :
  let es := [SelectPreset (of_Z 18); CustomTipChange "-5"] in
  Forall enabled es
  /\ selectedTip (run es) = lastPresetTipRef (run es)
  /\ In (selectedTip (run es)) TIP_PRESETS.
Proof.
  cbv zeta.
  assert (Forall enabled [SelectPreset (of_Z 18); CustomTipChange "-5"]) as Hen.
  { constructor; [right; right; left; reflexivity |].
    constructor; [exact I | constructor]. }
  split; [exact Hen |].
  destruct (selected_preset_is_remembered _ Hen) as (H1 & H2 & _).
  split; [exact H1 | exact H2].
Defined.

End Reachable.

(** ** The component and its earlier version *)

Section Versions.

Lemma previousState_handle (st : AppState) (e : Event) :
  previousState (handle st e)
  = fold_left Previous.handle (previousEvents [e]) (previousState st).
Proof.
  destruct e; try reflexivity; cbn [handle previousEvents fold_left].
  - unfold onPeopleChange. now destruct (negb _ || _).
  - unfold onPeopleBlur. now destruct (negb _ || _).
Qed.

Lemma previousState_fold (es : list Event) (st : AppState) :
  previousState (fold_left handle es st)
  = fold_left Previous.handle (previousEvents es) (previousState st).
Proof.
  revert st. induction es as [| e es IH]; intros st; [reflexivity |].
  cbn [fold_left]. rewrite IH, previousState_handle.
  destruct e; reflexivity.
Qed.

Lemma roundingMode_fold (es : list Event) (st : AppState) :
  forallb (fun e => negb (isRoundingModeChange e)) es = true ->
  roundingMode (fold_left handle es st) = roundingMode st.
Proof.
  revert st. induction es as [| e es IH]; intros st; [reflexivity |].
  cbn [forallb fold_left]. intros H. apply Bool.andb_true_iff in H as [He Hes].
  rewrite (IH _ Hes).
  destruct e; try reflexivity; try discriminate He; cbn [handle].
  - unfold onPeopleChange. now destruct (negb _ || _).
  - unfold onPeopleBlur. now destruct (negb _ || _).
Qed.

Lemma peopleInput_fold (es : list Event) (st : AppState) :
  forallb (fun e => negb (isPeopleChange e)) es = true ->
  peopleInput st = "1" ->
  peopleInput (fold_left handle es st) = "1".
Proof.
  revert st. induction es as [| e es IH]; intros st; [auto |].
  cbn [forallb fold_left]. intros H Hone.
  apply Bool.andb_true_iff in H as [He Hes].
  apply (IH _ Hes).
  destruct e; try exact Hone; try discriminate He; cbn [handle].
  unfold onPeopleBlur. now destruct (negb _ || _).
Qed.

(** X9.  The component extends its earlier version.  After every sequence of
    events the bill and tip-source part of the state is the state the
    earlier version reaches on the bill, preset and custom-tip events of the
    sequence, and the tip source, the presets and the two error flags
    rendered are the same.  If the rounding mode was never changed, the tip
    and the total are those of the earlier version and the first two rows
    of the results are its results panel; if also the people count was
    never edited, the results panel is the same. *)
Theorem component_extends_previous (es : list Event) :
  let st := run es in
  let old := Previous.run (previousEvents es) in
  previousState st = old
  /\ (v_isCustomActive (App st) = Previous.v_isCustomActive (Previous.App old)
     /\ v_activeTipPercent (App st) = Previous.v_activeTipPercent (Previous.App old)
     /\ v_presets (App st) = Previous.v_presets (Previous.App old)
     /\ v_billHasError (App st) = Previous.v_billHasError (Previous.App old)
     /\ v_tipHasError (App st) = Previous.v_tipHasError (Previous.App old))
  /\ (forallb (fun e => negb (isRoundingModeChange e)) es = true ->
      v_tipAmount (App st) = Previous.v_tipAmount (Previous.App old)
      /\ v_totalAmount (App st) = Previous.v_totalAmount (Previous.App old)
      /\ firstn 2 (v_results (App st)) = Previous.v_results (Previous.App old)
      /\ (forallb (fun e => negb (isPeopleChange e)) es = true ->
          v_results (App st) = Previous.v_results (Previous.App old))).
Proof.
  cbv zeta.
  assert (previousState (run es) = Previous.run (previousEvents es)) as Hold.
  { unfold run, Previous.run. apply previousState_fold. }
  split; [exact Hold |]. rewrite <- Hold.
  split; [repeat split |].
  intros Hround.
  pose proof (roundingMode_fold es initialState Hround) as Hmode.
  fold (run es) in Hmode. cbn [initialState roundingMode] in Hmode.
  assert (v_tipAmount (App (run es))
          = Previous.v_tipAmount (Previous.App (previousState (run es)))
          /\ v_totalAmount (App (run es))
             = Previous.v_totalAmount (Previous.App (previousState (run es))))
    as [Htip Htot].
  { cbn [App v_tipAmount v_totalAmount]. rewrite Hmode. split; reflexivity. }
  assert (firstn 2 (v_results (App (run es)))
          = Previous.v_results (Previous.App (previousState (run es)))) as Hrows.
  { change (firstn 2 (v_results (App (run es)))) with
      [ {| resultLabel := "Tip Amount";
           resultValue := formatCurrency (v_tipAmount (App (run es))) |};
        {| resultLabel := "Total";
           resultValue := formatCurrency (v_totalAmount (App (run es))) |} ].
    now rewrite Htip, Htot. }
  split; [exact Htip |]. split; [exact Htot |]. split; [exact Hrows |].
  intros Hpeople.
  pose proof (peopleInput_fold es initialState Hpeople eq_refl) as Hone.
  fold (run es) in Hone.
  destruct (stored_people_view 1 (run es) ltac:(lia) Hone) as [_ Hclamp].
  rewrite <- Hrows.
  change (v_results (App (run es))) with
    (firstn 2 (v_results (App (run es)))
     ++ (if (v_peopleClamped (App (run es)) >? one)%js then
           [ {| resultLabel :=
                  "Tip / person ("
                    ++ Number_toString (v_peopleClamped (App (run es))) ++ ")";
                resultValue := formatCurrency (v_perPersonTip (App (run es))) |};
             {| resultLabel :=
                  "Total / person ("
                    ++ Number_toString (v_peopleClamped (App (run es))) ++ ")";
                resultValue := formatCurrency (v_perPersonTotal (App (run es))) |} ]
         else []))%list at 1.
  rewrite Hclamp. change (of_Z 1 >? one)%js with false.
  cbv iota. apply List.app_nil_r.
Qed.

End Versions.

(** ** The text of an amount *)

Section CurrencyText.

Lemma string_app_assoc (a b c : string) :
  ((a ++ b) ++ c)%string = (a ++ b ++ c)%string.
Proof. induction a as [| x a IH]; cbn [String.append]; [| rewrite IH]; reflexivity. Qed.

Lemma string_length_app (a b : string) :
  String.length (a ++ b) = (String.length a + String.length b)%nat.
Proof. induction a as [| x a IH]; cbn [String.append String.length]; [| rewrite IH]; reflexivity. Qed.

Lemma substring_all (s : string) : substring 0 (String.length s) s = s.
Proof. induction s as [| x s IH]; cbn [substring String.length]; [| rewrite IH]; reflexivity. Qed.

Lemma substring_app_l (a b : string) : substring 0 (String.length a) (a ++ b) = a.
Proof.
  induction a as [| x a IH]; cbn [substring String.length String.append].
  - now destruct b.
  - now rewrite IH.
Qed.

Lemma substring_app_r (a b : string) :
  substring (String.length a) (String.length b) (a ++ b) = b.
Proof.
  induction a as [| x a IH]; cbn [substring String.length String.append].
  - apply substring_all.
  - exact IH.
Qed.

Lemma string_of_uint_length (d : uint) :
  String.length (NilEmpty.string_of_uint d) = nb_digits d.
Proof.
  induction d; cbn [NilEmpty.string_of_uint String.length nb_digits];
    [| rewrite IHd ..]; reflexivity.
Qed.

Lemma string_of_uint_revapp (a b : uint) :
  NilEmpty.string_of_uint (revapp a b)
  = (NilEmpty.string_of_uint (revapp a Nil) ++ NilEmpty.string_of_uint b)%string.
Proof.
  revert b. induction a; intros b; cbn [revapp]; [reflexivity | ..];
    rewrite IHa; symmetry; rewrite IHa;
    cbn [NilEmpty.string_of_uint]; rewrite string_app_assoc; reflexivity.
Qed.

Lemma string_of_uint_app (a b : uint) :
  NilEmpty.string_of_uint (Decimal.app a b)
  = (NilEmpty.string_of_uint a ++ NilEmpty.string_of_uint b)%string.
Proof.
  unfold Decimal.app. rewrite string_of_uint_revapp.
  fold (Decimal.rev (Decimal.rev a)). now rewrite DecimalFacts.rev_rev.
Qed.

Lemma eval10_revapp (a b : uint) (acc : N) :
  eval10 (revapp a b) acc = eval10 b (eval10 (revapp a Nil) acc).
Proof.
  revert b acc. induction a; intros b acc; cbn [revapp]; [reflexivity | ..];
    rewrite IHa; symmetry; rewrite IHa; reflexivity.
Qed.

Lemma eval10_app (a b : uint) (acc : N) :
  eval10 (Decimal.app a b) acc = eval10 b (eval10 a acc).
Proof.
  unfold Decimal.app. rewrite eval10_revapp.
  fold (Decimal.rev (Decimal.rev a)). now rewrite DecimalFacts.rev_rev.
Qed.

Lemma nb_digits_app (a b : uint) :
  nb_digits (Decimal.app a b) = (nb_digits a + nb_digits b)%nat.
Proof.
  rewrite !DecimalFacts.nb_digits_spec, DecimalFacts.app_spec.
  apply List.length_app.
Qed.

(** A text of two digits: its value after a prefix, and the digits from the
    value. *)
Lemma two_digits_uint (df : uint) :
  nb_digits df = 2%nat ->
  (forall acc, eval10 df acc = acc * 100 + eval10 df 0)%N
  /\ (eval10 df 0 < 100)%N
  /\ NilEmpty.string_of_uint df = two_digits (eval10 df 0).
Proof.
  intros H.
  destruct df as [| d | d | d | d | d | d | d | d | d | d]; try discriminate H;
    destruct d as [| d | d | d | d | d | d | d | d | d | d]; try discriminate H;
    cbn [nb_digits] in H;
    assert (d = Nil) as -> by (apply DecimalFacts.nb_digits_0; lia);
    (split; [intros acc; cbn [eval10]; lia |]);
    (split; [reflexivity | vm_compute; reflexivity]).
Qed.

Lemma to_uint_unorm (n : N) : unorm (N.to_uint n) = N.to_uint n.
Proof.
  rewrite <- DecimalN.Unsigned.to_of. now rewrite DecimalN.Unsigned.of_to.
Qed.

(** The digits of a number of cents with the point before the last two:
    the digits of the whole units, the point and two digits. *)
Lemma insert_point_cents (n : N) :
  exists df : uint,
    nb_digits df = 2%nat
    /\ eval10 df 0 = (n mod 100)%N
    /\ insert_point (digits_of_N n) 2
       = (digits_of_N (n / 100) ++ "." ++ NilEmpty.string_of_uint df)%string.
Proof.
  unfold digits_of_N.
  pose proof (eval10_to_uint n) as Hn.
  pose proof (to_uint_unorm n) as Hu.
  pose proof (to_uint_nonnil n) as Hnil.
  set (d := N.to_uint n) in *. clearbody d. subst n.
  destruct (Nat.le_gt_cases (nb_digits d) 2) as [Hk | Hk].
  - exists (if (nb_digits d =? 1)%nat then D0 d else d). clear Hu.
    destruct d as [| d | d | d | d | d | d | d | d | d | d]; try contradiction;
      destruct d as [| d | d | d | d | d | d | d | d | d | d];
      try (repeat split; vm_compute; reflexivity);
      cbn [nb_digits] in Hk;
      assert (d = Nil) as -> by (apply DecimalFacts.nb_digits_0; lia);
      repeat split; vm_compute; reflexivity.
  - assert (exists di df, Decimal.app di df = d /\ nb_digits df = 2%nat
                          /\ unorm di = di) as (di & df & Happ & Hdf & Hdi).
    { exists (del_tail 2 d), (del_head (nb_digits d - 2) d).
      split; [apply DecimalFacts.app_del_tail_head; lia |].
      split; [apply DecimalFacts.nb_digits_del_head_sub; lia |].
      rewrite <- Hu. apply DecimalFacts.unorm_del_tail_unorm. rewrite Hu. lia. }
    subst d. clear Hu Hnil.
    rewrite nb_digits_app, Hdf in Hk.
    destruct (two_digits_uint df Hdf) as (Hacc & Hlt & _).
    assert (eval10 (Decimal.app di df) 0 = (100 * eval10 di 0 + eval10 df 0)%N)
      as Hval by (rewrite eval10_app, Hacc; lia).
    exists df. split; [exact Hdf |]. split.
    + rewrite Hval. apply N.mod_unique with (q := eval10 di 0); [exact Hlt | reflexivity].
    + rewrite Hval.
      rewrite <- (N.div_unique _ 100 (eval10 di 0) (eval10 df 0) Hlt eq_refl).
      rewrite eval10_of_uint, DecimalN.Unsigned.to_of, Hdi.
      unfold insert_point.
      rewrite string_of_uint_length, nb_digits_app, Hdf.
      destruct (Nat.leb_spec (nb_digits di + 2) 2) as [Hle | _]; [lia |].
      cbv zeta. rewrite string_of_uint_length, nb_digits_app, Hdf.
      rewrite string_of_uint_app.
      replace (nb_digits di + 2 - 2)%nat
        with (String.length (NilEmpty.string_of_uint di))
        by (rewrite string_of_uint_length; lia).
      rewrite substring_app_l.
      rewrite <- Hdf, <- (string_of_uint_length df).
      now rewrite substring_app_r.
Qed.

Lemma cents_value (q : Qc) :
  (0 <= q)%Qc ->
  Z.of_N (cents q) = Qfloor (Qabs q * inject_Z (10 ^ Z.of_nat 2) + (1 # 2))
  /\ (inject_Z (Z.of_N (cents q)) - (1 # 2) <= q * 100
      < inject_Z (Z.of_N (cents q)) + (1 # 2))%Q.
Proof.
  intros Hq. unfold cents.
  assert (0 <= q * Q2Qc 100)%Qc as Hpos.
  { apply Qcmult_nonneg; [exact Hq | qc_to_q; lra]. }
  rewrite Z2N.id by (apply round_half_up_nonneg; exact Hpos).
  split.
  - unfold round_half_up. apply Qfloor_comp.
    assert (Qabs q == q)%Q as -> by (apply Qabs_pos; qc_to_q; lra).
    qc_to_q. change (inject_Z (10 ^ Z.of_nat 2)) with 100%Q. lra.
  - pose proof (round_half_up_nearest (q * Q2Qc 100)%Qc) as H.
    assert ((q * Q2Qc 100)%Qc == q * 100)%Q as Hx by (qc_to_q; lra).
    rewrite Hx in H. exact H.
Qed.

(** X10.  The text of an amount.  For an amount from 0 and below 10^21 the
    text is the dollar sign, the digits of the whole units, a point and
    exactly two digits: the amount in cents, rounded to the nearest cent (the
    larger at a tie), split into units and cents.  Read as a number the text
    after the sign is that number of cents over 100, which is within half a
    cent of the amount. *)
Theorem formatCurrency_prints_cents (q : Qc) :
  (0 <= q)%Qc ->
  (q < Q2Qc (inject_Z (10 ^ 21)))%Qc ->
  let n := cents q in
  let text := (digits_of_N (n / 100) ++ "." ++ two_digits (n mod 100))%string in
  formatCurrency (Fin q) = ("$" ++ text)%string
  /\ Number (Str text) = Fin (Q2Qc (inject_Z (Z.of_N n)) / Q2Qc 100)%Qc
  /\ (q - Q2Qc (1 # 200) < Q2Qc (inject_Z (Z.of_N n)) / Q2Qc 100
      <= q + Q2Qc (1 # 200))%Qc.
Proof.
  intros Hq Hbig. cbv zeta.
  destruct (cents_value q Hq) as [Hfloor Hnear].
  destruct (insert_point_cents (cents q)) as (df & Hdf & Hmod & Htext).
  destruct (two_digits_uint df Hdf) as (Hacc & _ & Hdigits).
  rewrite Hmod in Hdigits. rewrite Hdigits in Htext.
  split; [| split].
  - unfold formatCurrency. cbn [Number_isFinite].
    unfold Number_toFixed.
    assert (sgn q <> Lt) as Hsgn.
    { intros H. apply sgn_Lt in H. exact (Qclt_not_le _ _ H Hq). }
    assert (Qle_bool (inject_Z (10 ^ 21)) (Qabs q) = false) as ->.
    { destruct (Qle_bool (inject_Z (10 ^ 21)) (Qabs q)) eqn:E; [| reflexivity].
      apply Qle_bool_iff in E. clear Hnear.
      rewrite Qabs_pos in E by exact Hq.
      unfold Qclt in Hbig. cbn [this Q2Qc] in Hbig.
      rewrite Qred_correct in Hbig.
      exfalso. exact (Qlt_not_le _ _ Hbig E). }
    cbv zeta. rewrite <- Hfloor, N2Z.id, Htext.
    now destruct (sgn q).
  - cbn [Number].
    pose proof (StringToNumber_digits (N.to_uint (cents q / 100)) df true "" 0
                  (to_uint_nonnil _) (fun H => False_ind _ (Bool.diff_true_false H))
                  eq_refl eq_refl) as Hread.
    unfold tail_text in Hread. rewrite string_app_nil_r in Hread.
    rewrite <- Hdigits. unfold digits_of_N at 1. rewrite Hread.
    rewrite Hacc, eval10_to_uint, Hmod, Hdf.
    replace (cents q / 100 * 100 + cents q mod 100)%N with (cents q)
      by (pose proof (N.div_mod (cents q) 100); lia).
    f_equal. apply Qc_is_canon. unfold decimal_value. qc_to_q.
    change (inject_Z 10 ^ (0 - Z.of_nat 2))%Q with (1 # 100)%Q.
    field.
  - clear Hbig Hfloor Htext Hdigits Hq Hdf Hmod Hacc.
    generalize dependent (inject_Z (Z.of_N (cents q))). intros x Hnear.
    split; qc_to_q; [apply Qlt_shift_div_l | apply Qle_shift_div_r]; lra.
Qed.

(** The text of 12.345: the tie goes up. *)
Lemma formatCurrency_prints_12_345 :
  formatCurrency (Fin (Q2Qc (12345 # 1000))) = "$12.35"
  /\ Number (Str "12.35") = Fin (Q2Qc (1235 # 100)).
Proof.
  assert (0 <= Q2Qc (12345 # 1000))%Qc as H0 by (qc_to_q; lra).
  assert (Q2Qc (12345 # 1000) < Q2Qc (inject_Z (10 ^ 21)))%Qc as H1.
  { qc_to_q. change (inject_Z (10 ^ 21)) with (1000000000000000000000 # 1)%Q. lra. }
  destruct (formatCurrency_prints_cents (Q2Qc (12345 # 1000)) H0 H1) as (Ht & Hr & _).
  split.
  - exact Ht.
  - etransitivity; [exact Hr | number_compute].
Defined.

End CurrencyText.

(** ** Independence of the handlers *)

Section Handlers.

(** X11.  Each handler writes its own part of the state, from the event and
    that part alone: handling an event twice in a row is handling it once,
    and two events that write different parts can be handled in either
    order. *)
Theorem handlers_idempotent_and_commute (st : AppState) :
  (forall e : Event, handle (handle st e) e = handle st e)
  /\ (forall e1 e2 : Event,
        fieldOf e1 <> fieldOf e2 ->
        handle (handle st e1) e2 = handle (handle st e2) e1).
Proof.
  split.
  - intros e. destruct e; cbn [handle]; try reflexivity.
    + unfold onCustomTipChange.
      cbn [billInput selectedTip customTipInput lastPresetTipRef peopleInput
           roundingMode].
      now destruct (next =? "")%string.
    + unfold onPeopleChange. now destruct (negb _ || _).
    + unfold onPeopleBlur. now destruct (negb _ || _).
  - intros e1 e2 Hfield.
    destruct e1, e2; cbn [fieldOf] in Hfield; try contradiction;
      cbn [handle];
      unfold onPeopleChange, onPeopleBlur;
      repeat match goal with
             | |- context [if negb ?a || ?b then _ else _] => destruct (negb a || b)
             end;
      reflexivity.
Qed.

End Handlers.
